(** * umeq-csi: the disk service (publish / unpublish / dev-path / NextID)
      and the CSI endpoint parser, embedded from the Go sources.

    Layout
    - [GoStrings]  : the functions of Go's [strings], [strconv] and [fmt]
                     the sources call, on byte strings.
    - [Endpoint]   : [Parse] of pkg/umeq/server.go.
    - [Disk]       : the HTTP handlers of the disk service and [NextID],
                     as a state-and-panic monad over an etcd store, the
                     monitor channel ([wrapper.Exec]) and the response.
    - [Alloc]      : [NextID] as a small-step machine, one thread per
                     call, one mutex per process, one store for all.
    - [Scenario]   : concrete hosts, and the properties under study as
                     predicates on runs.
    - [Shape]      : the shapes a publish request can take.
    - [Listener]   : [Listen] of pkg/umeq/server.go and [main] of the
                     plugin, over the operating system's answers.
    - [Grpc]       : [logGRPC] and [logGRPCJson].
    - [Volumes]    : the delete handler, requests handled in a row, and
                     what it means for a store to be in order.
    The facts follow, one module per module above. *)

From Stdlib Require Import ZArith Lia.
From Stdlib Require Import Strings.Ascii Strings.String.
From Stdlib Require Import Numbers.DecimalString Numbers.DecimalZ.
From stdpp Require Import base option list gmap strings.


(* ===================================================================== *)
(** ** Go library functions on strings *)
(* ===================================================================== *)

Module GoStrings.

(** [strings.ToLower], ASCII path: ['A'..'Z'] are moved by ['a' - 'A'],
    every other byte is kept.  (For a string with a byte above 0x7f Go
    maps runes through the Unicode tables instead; the model is exact on
    ASCII strings.) *)
Definition lower_byte (c : ascii) : ascii :=
  let n := nat_of_ascii c in
  if (65 <=? n)%nat && (n <=? 90)%nat then ascii_of_nat (n + 32) else c.

Fixpoint ToLower (s : string) : string :=
  match s with
  | EmptyString => EmptyString
  | String c s' => String (lower_byte c) (ToLower s')
  end.

(** [strings.HasPrefix s p]: [s] is at least as long as [p] and starts
    with its bytes. *)
Fixpoint HasPrefix (s p : string) {struct p} : bool :=
  match p with
  | EmptyString => true
  | String c p' =>
      match s with
      | EmptyString => false
      | String d s' => Ascii.eqb c d && HasPrefix s' p'
      end
  end.

(** Drop the first [n] bytes: the slice [s[n:]] for [n <= len(s)]. *)
Fixpoint drop_bytes (n : nat) (s : string) : string :=
  match n, s with
  | O, _ => s
  | S n', String _ s' => drop_bytes n' s'
  | S _, EmptyString => EmptyString
  end.

(** First occurrence of [sep] in [s] ([strings.Index] followed by the two
    slices around it, as [genSplit] takes them). *)
Fixpoint cut (sep s : string) : option (string * string) :=
  if HasPrefix s sep then Some (EmptyString, drop_bytes (String.length sep) s)
  else match s with
       | EmptyString => None
       | String c s' =>
           match cut sep s' with
           | Some (a, b) => Some (String c a, b)
           | None => None
           end
       end.

(** [strings.SplitN s sep n] for a non-empty [sep] and [n >= 0]: at most
    [n] pieces, the last one the unsplit remainder; [n = 0] gives nil. *)
Fixpoint SplitN (s sep : string) (n : nat) : list string :=
  match n with
  | O => []
  | S O => [s]
  | S n' =>
      match cut sep s with
      | None => [s]
      | Some (a, b) => a :: SplitN b sep n'
      end
  end.

(** No [':'] in the string. *)
Fixpoint colon_free (s : string) : Prop :=
  match s with
  | EmptyString => True
  | String c s' => c <> ":"%char /\ colon_free s'
  end.

(** [strconv.Atoi]'s digit test on one byte: [ch -= '0'; if ch > 9] (byte
    arithmetic wraps, so bytes below ['0'] fail as well). *)
Definition digit_of (ch : ascii) : option Z :=
  let n := nat_of_ascii ch in
  if (48 <=? n)%nat && (n <=? 57)%nat then Some (Z.of_nat (n - 48)) else None.

(** Go's [int] on the 64-bit targets the service is built for. *)
Definition MaxInt : Z := 2 ^ 63 - 1.
Definition MinInt : Z := - 2 ^ 63.
Definition MaxUint64 : Z := 2 ^ 64 - 1.

(** Two's-complement wrap-around of [int] arithmetic. *)
Definition wrap_int (z : Z) : Z := (z + 2 ^ 63) mod 2 ^ 64 - 2 ^ 63.

(** How the digit loop of [Atoi] / [ParseUint] ends. *)
Inductive digits_result : Type :=
| DigitsOk (n : Z)
| DigitsSyntax          (* a byte that is no decimal digit *)
| DigitsRange.          (* the value left uint64 *)

(** The accumulation loop [n = n*10 + int(ch)], left to right; it stops
    at the first bad byte, or as soon as the value leaves [uint64] (only
    possible on the 19 and more bytes that [Atoi] hands to [ParseInt]). *)
Fixpoint parse_digits (s : string) (n : Z) : digits_result :=
  match s with
  | EmptyString => DigitsOk n
  | String ch s' =>
      match digit_of ch with
      | None => DigitsSyntax
      | Some d =>
          let n1 := (n * 10 + d)%Z in
          if (MaxUint64 <? n1)%Z then DigitsRange else parse_digits s' n1
      end
  end.

(** [strconv.Atoi s]: the value and whether the error is non-nil.  An
    optional sign, then one or more decimal digits; a syntax error gives
    0, a value out of range gives the nearest bound of [int] (as
    [ParseInt] does), both with an error. *)
Definition Atoi (s : string) : Z * bool :=
  match s with
  | EmptyString => (0, true)
  | String c0 rest =>
      let neg := Ascii.eqb c0 "-" in
      let body := if neg || Ascii.eqb c0 "+" then rest else s in
      match body with
      | EmptyString => (0, true)
      | _ =>
          match parse_digits body 0 with
          | DigitsSyntax => (0, true)
          | DigitsRange => (if neg then MinInt else MaxInt, true)
          | DigitsOk n =>
              let v := if neg then - n else n in
              if MaxInt <? v then (MaxInt, true)
              else if v <? MinInt then (MinInt, true)
              else (v, false)
          end
      end
  end%Z.

(** [fmt.Sprintf("%%d", v)]: the decimal digits, with a minus sign for a
    negative value. *)
Definition Sprintf_d (v : Z) : string := NilZero.string_of_int (Z.to_int v).

End GoStrings.

(* ===================================================================== *)
(** ** Results of Go code that may panic *)
(* ===================================================================== *)

Inductive Outcome (A : Type) : Type :=
| Done (a : A)
| Panicked (msg : string).
Arguments Done {A} a.
Arguments Panicked {A} msg.

(* ===================================================================== *)
(** ** pkg/umeq/server.go: Parse *)
(* ===================================================================== *)

Module Endpoint.
Import GoStrings.

(** The three results of [Parse]: protocol, address, error ([None] is
    Go's [nil]). *)
Definition ParseResult : Type := string * string * option string.

(** [func Parse(ep string) (string, string, error)].  [s[1]] and [s[0]]
    are index expressions: out of range they panic. *)
Definition Parse (ep : string) : Outcome ParseResult :=
  if HasPrefix (ToLower ep) "unix://" || HasPrefix (ToLower ep) "tcp://" then
    let s := SplitN ep "://" 2 in
    match s !! 1%nat with
    | None => Panicked "index out of range [1]"
    | Some s1 =>
        if bool_decide (s1 <> EmptyString) then
          match s !! 0%nat with
          | None => Panicked "index out of range [0]"
          | Some s0 => Done (s0, s1, None)
          end
        else Done (EmptyString, EmptyString, Some ("Invalid endpoint: " +:+ ep))
    end
  else
    (* Assume everything else is a file path for a Unix Domain Socket. *)
    Done ("unix", ep, None).

(** The scheme words [Parse] recognises, whatever their letter case. *)
Definition is_scheme (sch : string) : Prop :=
  ToLower sch = "unix" \/ ToLower sch = "tcp".


End Endpoint.

(* ===================================================================== *)
(** ** The disk service: store, monitor channel, response *)
(* ===================================================================== *)

Module Disk.
Import GoStrings.

(** What [etcdcli.Get] gives back: the key-value pairs of the response
    ([r.Kvs], with [r.Count] their number) or the error. *)
Inductive GetResult : Type :=
| GetOk (Kvs : list (string * string))
| GetErr (e : string).

(** What the handler did to the outside world, in program order. *)
Inductive Event : Type :=
| EtcdGet (key : string) (r : GetResult)
| EtcdPut (key val : string) (err : option string)
| MonitorExec (node cmd : string) (err : option string).

(** The two collaborators the handlers cannot see into.  Each answer may
    depend on everything that happened before.
    - [monitor h node cmd] is the error of [wrapper.Exec(node, cmd)]
      ([None] is nil);
    - [etcd_fault h] is the error of the next etcd request, [None] when
      the request goes through. *)
Record Env : Type := {
  monitor : list Event -> string -> string -> option string;
  etcd_fault : list Event -> option string
}.

(** What a handler put into the response body. *)
Inductive Chunk : Type :=
| Raw (bytes : string)              (* ctx.Write *)
| JSONMessage (message : string).   (* ctx.JSON(iris.Map{"message": ...}) *)

Record State : Type := {
  kv : gmap string string;   (* the etcd keyspace *)
  trace : list Event;        (* requests sent so far, oldest first *)
  status : Z;                (* HTTP status of the response *)
  body : list Chunk;         (* response body, in write order *)
  logged : list string       (* lines given to package log *)
}.

(** A handler: reads the collaborators, changes the state, and either
    finishes or panics. *)
Definition M (A : Type) : Type := Env -> State -> Outcome A * State.

Definition ret {A} (a : A) : M A := fun _ st => (Done a, st).

Definition bind {A B} (c : M A) (k : A -> M B) : M B :=
  fun env st =>
    match c env st with
    | (Done a, st') => k a env st'
    | (Panicked msg, st') => (Panicked msg, st')
    end.

Declare Scope go_scope.
Delimit Scope go_scope with go.
Notation "x <- c ;; k" := (bind c (fun x => k))
  (at level 100, c at next level, k at level 200, right associativity) : go_scope.
Notation "c ;;; k" := (bind c (fun _ => k))
  (at level 100, k at level 200, right associativity) : go_scope.
Open Scope go_scope.

Definition panic {A} (msg : string) : M A := fun _ st => (Panicked msg, st).

Definition record (e : Event) (st : State) : State :=
  {| kv := kv st; trace := trace st ++ [e]; status := status st;
     body := body st; logged := logged st |}.

(** [etcdcli.Get(c, key)]: a single-key read. *)
Definition etcdGet (key : string) : M GetResult :=
  fun env st =>
    let r := match etcd_fault env (trace st) with
             | Some e => GetErr e
             | None => GetOk (match kv st !! key with
                              | Some v => [(key, v)]
                              | None => []
                              end)
             end in
    (Done r, record (EtcdGet key r) st).

(** [etcdcli.Put(c, key, val)]; the callers drop both results. *)
Definition etcdPut (key val : string) : M (option string) :=
  fun env st =>
    let err := etcd_fault env (trace st) in
    let st' := record (EtcdPut key val err) st in
    (Done err,
     match err with
     | Some _ => st'
     | None => {| kv := <[key := val]> (kv st'); trace := trace st';
                  status := status st'; body := body st'; logged := logged st' |}
     end).

(** [wrapper.Exec(node, cmd)]. *)
Definition Exec (node cmd : string) : M (option string) :=
  fun env st =>
    let err := monitor env (trace st) node cmd in
    (Done err, record (MonitorExec node cmd err) st).

(** [ctx.StatusCode(code)]. *)
Definition StatusCode (code : Z) : M unit :=
  fun _ st => (Done tt, {| kv := kv st; trace := trace st; status := code;
                           body := body st; logged := logged st |}).

Definition put_chunk (c : Chunk) : M unit :=
  fun _ st => (Done tt, {| kv := kv st; trace := trace st; status := status st;
                           body := body st ++ [c]; logged := logged st |}).

(** [ctx.JSON(iris.Map{"message": message})]. *)
Definition JSON (message : string) : M unit := put_chunk (JSONMessage message).

(** [ctx.Write(bytes)]. *)
Definition ctxWrite (bytes : string) : M unit := put_chunk (Raw bytes).

(** [log.Println(line)], [line] being the operands joined by spaces. *)
Definition logPrintln (line : string) : M unit :=
  fun _ st => (Done tt, {| kv := kv st; trace := trace st; status := status st;
                           body := body st; logged := logged st ++ [line] |}).

(** The line feed that [fmt.Sprintln] puts at the end. *)
Definition newline : string := String (ascii_of_nat 10) EmptyString.

(** [log.Panicln(line)]: prints, then panics with what it printed, line
    feed included. *)
Definition logPanicln {A} (line : string) : M A :=
  logPrintln line ;;; panic (line +:+ newline).

(** [err.Error()]: calling it on a nil error is a nil dereference. *)
Definition Error (err : option string) : M string :=
  match err with
  | Some e => ret e
  | None => panic "runtime error: invalid memory address or nil pointer dereference"
  end.

(** [r.Kvs[0].Value]. *)
Definition Kvs0Value (Kvs : list (string * string)) : M string :=
  match Kvs with
  | (_, v) :: _ => ret v
  | [] => panic "runtime error: index out of range [0] with length 0"
  end.

(** [r.Count]. *)
Definition Count (Kvs : list (string * string)) : Z := Z.of_nat (length Kvs).

Definition diskRoot : string := "/fs/trust/vm/csi/".
Definition idKey : string := "/xiaomakai/id".
Definition bindKey (name : string) : string := "/xiaomakai/" +:+ name.
Definition devPathPrefix : string := "/dev/disk/by-id/virtio-".

(** The four monitor commands, as the [Sprintf] and [+] of the handlers
    build them. *)
Definition drive_add_cmd (name : string) : string :=
  "drive_add 0 if=none,format=qcow2,file=" +:+ (diskRoot +:+ name +:+ ".qcow2")
    +:+ ",id=" +:+ name.
Definition device_add_cmd (name serial : string) : string :=
  "device_add virtio-blk-pci,drive=" +:+ name +:+ ",id=" +:+ name
    +:+ ",serial=" +:+ serial.
Definition device_del_cmd (name : string) : string := "device_del " +:+ name.
Definition drive_del_cmd (name : string) : string := "drive_del " +:+ name.

(** [func NextID() string].  [m.Lock()] and the deferred [m.Unlock()]
    do nothing observable while one handler runs alone; module [Alloc]
    has them. *)
Definition NextID : M string :=
  r <- etcdGet idKey ;;
  match r with
  | GetErr e => panic e
  | GetOk Kvs =>
      if (Count Kvs =? 0)%Z then
        _ <- etcdPut idKey "1" ;;
        ret "0"
      else
        old <- Kvs0Value Kvs ;;
        let value := fst (Atoi old) in
        let value := wrap_int (value + 1) in
        _ <- etcdPut idKey (Sprintf_d value) ;;
        ret old
  end.

(** [app.Post("/disk/{name}/publish/{node}")]. *)
Definition publish (name node : string) : M unit :=
  err <- Exec node (drive_add_cmd name) ;;
  match err with
  | Some e =>
      StatusCode 500 ;;; JSON e ;;; logPrintln ("publish err: " +:+ e)
  | None =>
      r <- etcdGet (bindKey name) ;;
      match r with
      | GetErr e => panic e
      | GetOk Kvs =>
          Kvs <- (if (Count Kvs =? 0)%Z then
                    id <- NextID ;;
                    _ <- etcdPut (bindKey name) id ;;
                    r <- etcdGet (bindKey name) ;;
                    match r with
                    | GetErr e => panic e
                    | GetOk Kvs' => ret Kvs'
                    end
                  else ret Kvs) ;;
          serial <- Kvs0Value Kvs ;;
          err <- Exec node (device_add_cmd name serial) ;;
          match err with
          | None => ret tt
          | Some _ =>
              err <- Exec node (drive_del_cmd name) ;;
              (match err with
               | Some e => logPanicln ("error: " +:+ e)
               | None => ret tt
               end) ;;;
              StatusCode 500 ;;;
              message <- Error err ;;
              JSON message ;;;
              logPrintln ("device_add err: " +:+ message)
          end
      end
  end.

(** [app.Delete("/disk/{name}/publish/{node}")]. *)
Definition unpublish (name node : string) : M unit :=
  err <- Exec node (device_del_cmd name) ;;
  match err with
  | None => ret tt
  | Some _ =>
      err <- Exec node (drive_del_cmd name) ;;
      match err with
      | None => ret tt
      | Some e =>
          StatusCode 500 ;;; JSON e ;;; logPrintln ("unpushlish err: " +:+ e)
      end
  end.

(** [app.Get("/dev-path/{name}")]. *)
Definition devPath (name : string) : M unit :=
  r <- etcdGet (bindKey name) ;;
  match r with
  | GetErr e => panic e
  | GetOk Kvs =>
      if (Count Kvs =? 0)%Z then
        let message := "volume " +:+ name +:+ " not found! not published yet?" in
        StatusCode 500 ;;; JSON message ;;; logPrintln message
      else
        ctxWrite devPathPrefix ;;;
        serial <- Kvs0Value Kvs ;;
        ctxWrite serial
  end.

(** A request arrives: nothing sent yet, status 200, empty body. *)
Definition fresh (store : gmap string string) : State :=
  {| kv := store; trace := []; status := 200; body := []; logged := [] |}.

(** The bytes [ctx.Write] put on the wire. *)
Fixpoint written (b : list Chunk) : string :=
  match b with
  | [] => EmptyString
  | Raw s :: b' => s +:+ written b'
  | JSONMessage _ :: b' => written b'
  end.

(** An environment in which every etcd request goes through. *)
Definition etcd_up (env : Env) : Prop := forall h, etcd_fault env h = None.

Definition is_etcd (e : Event) : bool :=
  match e with MonitorExec _ _ _ => false | _ => true end.
Definition is_command (e : Event) : bool := negb (is_etcd e).

End Disk.

(* ===================================================================== *)
(** ** NextID under concurrency *)
(* ===================================================================== *)

(** Every call of [NextID] is a thread.  A thread belongs to a process
    (an instance of the service); the processes share the etcd keyspace
    and nothing else.  [var m sync.Mutex] is a package variable: one
    mutex per process.  A thread takes three steps, and the scheduler
    may run any other thread between two of them:
      1. [m.Lock()]                     (waits while the mutex is taken)
      2. [etcdcli.Get(c, "/xiaomakai/id")]
      3. [etcdcli.Put(...)], return, and the deferred [m.Unlock()].
    The store answers every request here (no faults). *)
Module Alloc.
Import GoStrings.

Inductive pc : Type :=
| Idle                                  (* before m.Lock() *)
| Locked                                (* holds m, before Get *)
| Fetched (r : option string)           (* holds m, r is what Get returned *)
| Returned (serial : string).           (* m released, NextID returned *)

Record thread : Type := { proc : nat; at_pc : pc }.

Record system : Type := {
  store : gmap string string;
  threads : list thread
}.

(** Does the thread hold its process's mutex? *)
Definition holds (t : thread) : bool :=
  match at_pc t with
  | Locked | Fetched _ => true
  | Idle | Returned _ => false
  end.

(** Is the mutex of process [p] free? *)
Definition mutex_free (p : nat) (ts : list thread) : bool :=
  forallb (fun t => negb (Nat.eqb (proc t) p && holds t)) ts.

Definition move (i : nat) (t : thread) (to : pc) (s : system) : list thread :=
  <[i := {| proc := proc t; at_pc := to |}]> (threads s).

(** One step of thread [i]; a thread that cannot move leaves the system
    as it is. *)
Definition step (i : nat) (s : system) : system :=
  match threads s !! i with
  | None => s
  | Some t =>
      match at_pc t with
      | Idle =>
          if mutex_free (proc t) (threads s)
          then {| store := store s; threads := move i t Locked s |}
          else s
      | Locked =>
          {| store := store s;
             threads := move i t (Fetched (store s !! Disk.idKey)) s |}
      | Fetched None =>
          {| store := <[Disk.idKey := "1"]> (store s);
             threads := move i t (Returned "0") s |}
      | Fetched (Some old) =>
          {| store := <[Disk.idKey := Sprintf_d (wrap_int (fst (Atoi old) + 1))]> (store s);
             threads := move i t (Returned old) s |}
      | Returned _ => s
      end
  end.

(** A schedule names the thread that moves next. *)
Definition run (sched : list nat) (s : system) : system :=
  foldl (fun s i => step i s) s sched.

(** [procs] lists, per call, the process that makes it. *)
Definition start (kv : gmap string string) (procs : list nat) : system :=
  {| store := kv; threads := (fun p => {| proc := p; at_pc := Idle |}) <$> procs |}.

Definition serial_of (t : thread) : option string :=
  match at_pc t with Returned v => Some v | _ => None end.

(** The serials handed out so far. *)
Definition serials (s : system) : list string := omap serial_of (threads s).

Definition all_returned (s : system) : bool :=
  forallb (fun t => bool_decide (is_Some (serial_of t))) (threads s).

(** The counter key holds [n], the next serial to hand out: it is absent
    (and [n] is 0) or holds the decimal form of [n]. *)
Definition counter_is (kv : gmap string string) (n : Z) : Prop :=
  (kv !! Disk.idKey = None /\ n = 0%Z) \/ kv !! Disk.idKey = Some (Sprintf_d n).

(** At most one thread holds a mutex (stated for the threads of one
    process). *)
Definition one_holder (ts : list thread) : Prop :=
  forall i j ti tj,
    ts !! i = Some ti -> ts !! j = Some tj ->
    holds ti = true -> holds tj = true -> i = j.

(** What a thread has read is still what the store holds. *)
Definition reads_current (s : system) : Prop :=
  forall i t r,
    threads s !! i = Some t -> at_pc t = Fetched r -> r = store s !! Disk.idKey.

(** The first [c] serials from [n0] on. *)
Definition handed_out (n0 : Z) (c : nat) : list string :=
  (fun i => Sprintf_d (n0 + Z.of_nat i)) <$> seq 0 c.

(** What holds of every reachable state when all [N] calls are made in
    process [p] and the counter stood at [n0]. *)
Record invariant (p : nat) (n0 : Z) (N : nat) (s : system) : Prop := {
  inv_proc : Forall (fun t => proc t = p) (threads s);
  inv_len : length (threads s) = N;
  inv_mutex : one_holder (threads s);
  inv_read : reads_current s;
  inv_count : exists c : nat,
      counter_is (store s) (n0 + Z.of_nat c) /\ serials s ≡ₚ handed_out n0 c
}.

End Alloc.

(* ===================================================================== *)
(** ** Scenarios and the properties under study *)
(* ===================================================================== *)

Module Scenario.
Import GoStrings Disk.

(** A monitor that refuses the commands starting with one of the given
    words and accepts the others, next to an etcd without faults. *)
Definition refuses (words : list string) (cmd : string) : bool :=
  existsb (fun w => HasPrefix cmd w) words.

Definition host (words : list string) : Env :=
  {| monitor := fun _ _ cmd => if refuses words cmd then Some "rejected" else None;
     etcd_fault := fun _ => None |}.

(** What one request leaves behind. *)
Definition sent (r : Outcome unit * State) : list Event := trace (snd r).

(** Unpublish always sends the backend detach. *)
Definition backend_detach_sent (env : Env) (store : gmap string string)
    (name node : string) : Prop :=
  exists err,
    MonitorExec node (drive_del_cmd name) err ∈ sent (unpublish name node env (fresh store)).

(** Publish answers the caller (it does not panic) with a failure status. *)
Definition publish_answers_failure (env : Env) (store : gmap string string)
    (name node : string) : Prop :=
  exists st', publish name node env (fresh store) = (Done tt, st') /\ status st' <> 200%Z.

(** The first [NextID] stores the serial it returns. *)
Definition first_serial_is_stored (env : Env) (store : gmap string string) : Prop :=
  store !! idKey = None ->
  exists serial st',
    NextID env (fresh store) = (Done serial, st') /\ kv st' !! idKey = Some serial.

(** In a trace, every monitor command comes after a lookup of the
    binding of [name]. *)
Definition lookup_precedes_commands (name : string) (t : list Event) : Prop :=
  forall pre node cmd err post,
    t = pre ++ MonitorExec node cmd err :: post ->
    exists r, EtcdGet (bindKey name) r ∈ pre.

(** A lookup that finds no binding is answered without the
    internal-error status and without a log line. *)
Definition miss_is_routine (env : Env) (store : gmap string string) (name : string) : Prop :=
  store !! bindKey name = None ->
  let r := devPath name env (fresh store) in
  status (snd r) <> 500%Z /\ logged (snd r) = [].

(** Any schedule of [NextID] calls that lets every call return hands out
    pairwise distinct serials. *)
Definition serials_distinct (kv : gmap string string) (procs sched : list nat) : Prop :=
  let s := Alloc.run sched (Alloc.start kv procs) in
  Alloc.all_returned s = true -> NoDup (Alloc.serials s).

End Scenario.

(* ===================================================================== *)
(** ** The shapes a publish request can take *)
(* ===================================================================== *)

Module Shape.
Import GoStrings Disk.

Definition nil_dereference : string :=
  "runtime error: invalid memory address or nil pointer dereference".

(** From the device attach on, with the binding resolved to [serial]:
    the commands sent, how the handler ends, the response status and the
    log. *)
Inductive attached (name node serial : string) :
    list Event -> Outcome unit -> Z -> list string -> Prop :=
| attach_ok :
    attached name node serial
      [MonitorExec node (device_add_cmd name serial) None]
      (Done tt) 200 []
| attach_undone e :
    attached name node serial
      [MonitorExec node (device_add_cmd name serial) (Some e);
       MonitorExec node (drive_del_cmd name) None]
      (Panicked nil_dereference) 500 []
| attach_dirty e e' :
    attached name node serial
      [MonitorExec node (device_add_cmd name serial) (Some e);
       MonitorExec node (drive_del_cmd name) (Some e')]
      (Panicked ("error: " +:+ e' +:+ newline)) 200 ["error: " +:+ e'].

(** The etcd requests of the binding resolution: the lookup comes first. *)
Definition resolution (name : string) (etcd : list Event) : Prop :=
  Forall (fun e => is_etcd e = true) etcd /\
  exists r more, etcd = EtcdGet (bindKey name) r :: more.

(** A whole publish request. *)
Inductive published (name node : string) : Outcome unit * State -> Prop :=
| publish_refused kv' e :
    published name node
      (Done tt,
       {| kv := kv'; trace := [MonitorExec node (drive_add_cmd name) (Some e)];
          status := 500; body := [JSONMessage e];
          logged := ["publish err: " +:+ e] |})
| publish_unresolved kv' etcd msg :
    resolution name etcd ->
    published name node
      (Panicked msg,
       {| kv := kv'; trace := MonitorExec node (drive_add_cmd name) None :: etcd;
          status := 200; body := []; logged := [] |})
| publish_resolved kv' etcd serial cmds out code lines :
    resolution name etcd ->
    attached name node serial cmds out code lines ->
    published name node
      (out,
       {| kv := kv'; trace := MonitorExec node (drive_add_cmd name) None :: etcd ++ cmds;
          status := code; body := []; logged := lines |}).

End Shape.

(* ===================================================================== *)
(** ** pkg/umeq/server.go: Listen; cmd/plugin/main.go: main *)
(* ===================================================================== *)

Module Listener.
Import GoStrings Endpoint.

(** The error of [os.Remove]: nil, one that [os.IsNotExist] accepts, or
    any other. *)
Inductive RemoveResult : Type :=
| Removed
| RemoveNotExist (e : string)
| RemoveFailed (e : string).

(** What [Listen] asks of the operating system, in program order. *)
Inductive OsEvent : Type :=
| OsRemove (path : string) (r : RemoveResult)
| NetListen (network addr : string) (err : option string).

(** The operating system, as far as [Listen] sees it. *)
Record Os : Type := {
  os_remove : list OsEvent -> string -> RemoveResult;
  net_listen : list OsEvent -> string -> string -> option string
}.

(** The three errors [Listen] can return, by where they come from. *)
Inductive ListenError : Type :=
| ErrParse (msg : string)        (* the error of Parse, as it is *)
| ErrRemove (addr e : string)    (* fmt.Errorf("%s: %q", addr, err) *)
| ErrListen (e : string).        (* the error of net.Listen *)

(** The three results of [Listen]: the listener (the network and address
    it is bound to, [None] for nil), the cleanup function (the paths it
    removes when called, [None] for nil) and the error. *)
Record Listening : Type := {
  ret_l : option (string * string);
  ret_cleanup : option (list string);
  ret_err : option ListenError
}.

(** [func Listen(endpoint string) (net.Listener, func(), error)], with
    the requests it made. *)
Definition Listen (os : Os) (endpoint : string) : Outcome (Listening * list OsEvent) :=
  match Parse endpoint with
  | Panicked msg => Panicked msg
  | Done (_, _, Some err) =>
      Done ({| ret_l := None; ret_cleanup := None; ret_err := Some (ErrParse err) |}, [])
  | Done (proto, addr, None) =>
      if String.eqb proto "unix" then
        let addr := "/" +:+ addr in
        let r := os_remove os [] addr in
        let t := [OsRemove addr r] in
        match r with
        | RemoveFailed e =>
            Done ({| ret_l := None; ret_cleanup := None;
                     ret_err := Some (ErrRemove addr e) |}, t)
        | _ =>
            let err := net_listen os t proto addr in
            Done ({| ret_l := match err with None => Some (proto, addr) | Some _ => None end;
                     ret_cleanup := Some [addr];
                     ret_err := ErrListen <$> err |},
                  t ++ [NetListen proto addr err])
        end
      else
        let err := net_listen os [] proto addr in
        Done ({| ret_l := match err with None => Some (proto, addr) | Some _ => None end;
                 ret_cleanup := Some [];
                 ret_err := ErrListen <$> err |},
              [NetListen proto addr err])
  end.

(** The fields of [umeq.Csi] that [main] sets (the type itself is
    declared outside the files at hand). *)
Record Csi : Type := {
  NodeID : string;
  DriverName : string;
  VendorVersion : string
}.

(** [func main()] of the plugin, from the two environment variables to
    the call [s.Start(endpoint, &csi, &csi, &csi)]. *)
Definition main (endpoint nodeId : string) : Outcome (string * Csi) :=
  if String.eqb endpoint "" then
    Panicked "system environment CSI_ENDPOINT must not empty!"
  else if String.eqb nodeId "" then
    Panicked "system environment NODE_NAME must not empty!"
  else
    Done ("unix://" +:+ endpoint,
          {| NodeID := nodeId; DriverName := "umeq-csi.xiaomakai.com";
             VendorVersion := "1.0.0" |}).

(** A listener on the Unix socket [path]: the stale socket file is
    removed first; unless the removal failed for another reason than the
    file not being there, the socket is bound, and the cleanup removes
    that same path. *)
Definition serves_socket (os : Os) (endpoint path : string) : Prop :=
  let r := os_remove os [] path in
  match r with
  | RemoveFailed e =>
      Listen os endpoint =
      Done ({| ret_l := None; ret_cleanup := None; ret_err := Some (ErrRemove path e) |},
            [OsRemove path r])
  | _ =>
      let err := net_listen os [OsRemove path r] "unix" path in
      Listen os endpoint =
      Done ({| ret_l := match err with None => Some ("unix", path) | Some _ => None end;
               ret_cleanup := Some [path];
               ret_err := ErrListen <$> err |},
            [OsRemove path r; NetListen "unix" path err])
  end.

(** An operating system that has no file at any path and binds every
    address. *)
Definition clean_os : Os :=
  {| os_remove := fun _ _ => RemoveNotExist "no such file or directory";
     net_listen := fun _ _ _ => None |}.

End Listener.

(* ===================================================================== *)
(** ** pkg/umeq/server.go: logGRPC *)
(* ===================================================================== *)

Module Grpc.

Section Interceptor.

(** Requests and responses are whatever the services exchange. *)
Context {Req Resp : Type}.

(** The lines given to glog. *)
Inductive Line : Type :=
| InfoCall (method : string)         (* "GRPC call: %s" *)
| InfoRequest (req : Req)            (* "GRPC request: %s", secrets stripped *)
| ErrorLine (err : string)           (* "GRPC error: %v" *)
| InfoResponse (resp : Resp)         (* "GRPC response: %s", secrets stripped *)
| InfoJSON (Method : string) (Request : Req) (Response : Resp)
           (Error : string) (FullError : option string).
                                     (* "gRPCCall: %s", secrets included *)

(** [glog.V(level)] under the verbosity the process runs with. *)
Definition V (verbosity level : Z) : bool := (level <=? verbosity)%Z.

(** [func logGRPCJson(method, request, reply, err)]. *)
Definition logGRPCJson (verbosity : Z) (method : string) (request : Req)
    (reply : Resp) (err : option string) : list Line :=
  let Error := match err with Some e => e | None => EmptyString end in
  if V verbosity 5 then [InfoJSON method request reply Error err] else [].

(** [func logGRPC(ctx, req, info, handler)]: the result of the handler
    and the lines logged, [method] being [info.FullMethod]. *)
Definition logGRPC (verbosity : Z) (handler : Req -> Resp * option string)
    (method : string) (req : Req) : (Resp * option string) * list Line :=
  let pri := if String.eqb method "/csi.v1.Identity/Probe" then 5%Z else 3%Z in
  let l1 := if V verbosity pri then [InfoCall method] else [] in
  let v5 := V verbosity 5 in
  let l2 := if v5 then [InfoRequest req] else [] in
  let '(resp, err) := handler req in
  let l3 := match err with Some e => [ErrorLine e] | None => [] end in
  let l4 := if v5 then InfoResponse resp :: logGRPCJson verbosity method req resp err
            else [] in
  ((resp, err), l1 ++ l2 ++ l3 ++ l4).

(** Does the line show any of the request or of the response? *)
Definition shows_payload (l : Line) : bool :=
  match l with
  | InfoRequest _ | InfoResponse _ | InfoJSON _ _ _ _ _ => true
  | InfoCall _ | ErrorLine _ => false
  end.

End Interceptor.

Arguments Line : clear implicits.

End Grpc.

(* ===================================================================== *)
(** ** The disk service: deleting a volume, and requests in a row *)
(* ===================================================================== *)

Module Volumes.
Import GoStrings Disk.

(** What [etcdcli.Delete] gives back: the response (as [%v] prints it)
    or the error. *)
Inductive DeleteResult : Type :=
| DeleteOk (resp : string)
| DeleteErr (e : string).

(** The requests of the delete handler, in program order. *)
Inductive AdminEvent : Type :=
| FileRemove (path : string) (err : option string)
| EtcdDelete (key : string) (r : DeleteResult).

(** The collaborators of the delete handler: [os.Remove] on the image
    file and [etcdcli.Delete]. *)
Record AdminEnv : Type := {
  remove_image : string -> option string;
  etcd_delete : string -> DeleteResult
}.

(** What a delete request leaves behind: the store, the response and the
    log (in a [State] whose trace stays empty), its own requests, and
    the lines printed on standard output. *)
Record Deletion : Type := {
  after : State;
  requests : list AdminEvent;
  stdout : list string
}.

(** [app.Delete("/disk/{name}")]. *)
Definition deleteDisk (env : AdminEnv) (name : string)
    (store : gmap string string) : Deletion :=
  let path := diskRoot +:+ name +:+ ".qcow2" in
  match remove_image env path with
  | Some e =>
      {| after := {| kv := store; trace := []; status := 500;
                     body := [JSONMessage e];
                     logged := ["delete qcow2 err: " +:+ e] |};
         requests := [FileRemove path (Some e)];
         stdout := [] |}
  | None =>
      let r := etcd_delete env (bindKey name) in
      {| after := {| kv := match r with
                           | DeleteOk _ => delete (bindKey name) store
                           | DeleteErr _ => store
                           end;
                     trace := []; status := 200; body := [];
                     logged := [match r with
                                | DeleteErr e => "etcd delete ERR: " +:+ e
                                | DeleteOk resp => "etcd resp:" +:+ resp
                                end] |};
         requests := [FileRemove path None; EtcdDelete (bindKey name) r];
         stdout := ["Removed  " +:+ name] |}
  end.

(** The requests that touch bindings, and the collaborators one request
    meets. *)
Inductive Request : Type :=
| ReqPublish (name node : string)
| ReqUnpublish (name node : string)
| ReqDevPath (name : string)
| ReqDelete (name : string).

Record Backend : Type := { disk : Env; admin : AdminEnv }.

Definition name_of (rq : Request) : string :=
  match rq with
  | ReqPublish name _ | ReqUnpublish name _ | ReqDevPath name | ReqDelete name => name
  end.

(** The store after one request, handled alone (a panic keeps what was
    written before it). *)
Definition serve (b : Backend) (rq : Request) (store : gmap string string)
    : gmap string string :=
  match rq with
  | ReqPublish name node => kv (snd (publish name node (disk b) (fresh store)))
  | ReqUnpublish name node => kv (snd (unpublish name node (disk b) (fresh store)))
  | ReqDevPath name => kv (snd (devPath name (disk b) (fresh store)))
  | ReqDelete name => kv (after (deleteDisk (admin b) name store))
  end.

(** The store after the requests of a list, one after the other. *)
Definition serve_all (l : list (Backend * Request)) (store : gmap string string)
    : gmap string string :=
  foldl (fun s br => serve (fst br) (snd br) s) store l.

(** [NextID] called [n] times in a row: the serials and the store. *)
Fixpoint NextID_times (env : Env) (n : nat) (store : gmap string string)
    : list (Outcome string) * gmap string string :=
  match n with
  | O => ([], store)
  | S n' =>
      let r := NextID env (fresh store) in
      let rest := NextID_times env n' (kv (snd r)) in
      (fst r :: fst rest, snd rest)
  end.

(** A store in order: the counter stands at [n], and every other key
    holds the decimal form of a number below [n] that no other key
    holds. *)
Definition store_ok (store : gmap string string) (n : Z) : Prop :=
  (0 <= n)%Z /\
  Alloc.counter_is store n /\
  (forall key v, key <> idKey -> store !! key = Some v ->
     exists k, (0 <= k < n)%Z /\ v = Sprintf_d k) /\
  (forall key key' v, key <> idKey -> key' <> idKey ->
     store !! key = Some v -> store !! key' = Some v -> key = key').

(** Every request of the list meets an etcd that answers, and none is
    about the volume whose binding key is the counter key. *)
Definition well_served (l : list (Backend * Request)) : Prop :=
  Forall (fun br => etcd_up (disk (fst br)) /\ name_of (snd br) <> "id") l.

(** A host whose etcd is down: every request fails with [e]. *)
Definition etcd_down (e : string) : Env :=
  {| monitor := fun _ _ _ => None; etcd_fault := fun _ => Some e |}.

(** A host on which only the write number [n] of a request fails (the
    write that comes after [n] earlier etcd requests). *)
Definition etcd_drops (n : nat) : Env :=
  {| monitor := fun _ _ _ => None;
     etcd_fault := fun h => if Nat.eqb (length (List.filter is_etcd h)) n
                            then Some "timeout" else None |}.

Definition quiet_admin : AdminEnv :=
  {| remove_image := fun _ => None; etcd_delete := fun _ => DeleteOk "ok" |}.

End Volumes.

(* ===================================================================== *)
(** ** Facts: strings *)
(* ===================================================================== *)

Module GoStringsFacts.
Import GoStrings.



Lemma ToLower_app a b : ToLower (a +:+ b) = ToLower a +:+ ToLower b.
Proof. induction a as [|c a IH]; simpl; [reflexivity | now rewrite IH]. Qed.


Lemma colon_free_ToLower s : colon_free (ToLower s) -> colon_free s.
Proof.
  induction s as [|c s IH]; simpl; [trivial|].
  intros [Hc Hs]. split; [|auto].
  intros ->. apply Hc. reflexivity.
Qed.

Lemma cut_sep_here rest : cut "://" ("://" +:+ rest) = Some (EmptyString, rest).
Proof. reflexivity. Qed.

Lemma cut_sep_skip c s :
  c <> ":"%char ->
  cut "://" (String c s) =
  match cut "://" s with Some (a, b) => Some (String c a, b) | None => None end.
Proof.
  intros Hc. cbn [cut HasPrefix].
  destruct (Ascii.eqb_spec ":" c) as [E|_]; [now subst|reflexivity].
Qed.

(** The first ["://"] of [sch://rest] is the one after a colon-free [sch]. *)
Lemma cut_scheme sch rest :
  colon_free sch -> cut "://" (sch +:+ "://" +:+ rest) = Some (sch, rest).
Proof.
  induction sch as [|c sch IH]; intros H.
  - apply cut_sep_here.
  - destruct H as [Hc Hs].
    change (String c sch +:+ "://" +:+ rest) with (String c (sch +:+ "://" +:+ rest)).
    rewrite (cut_sep_skip _ _ Hc), (IH Hs). reflexivity.
Qed.

(** *** Atoi reads back what Sprintf("%d") prints *)

Lemma of_uint_acc_ge d p : (p <= Pos.of_uint_acc d p)%positive.
Proof.
  revert p. induction d as [|d IH|d IH|d IH|d IH|d IH|d IH|d IH|d IH|d IH|d IH];
    intros p; cbn [Pos.of_uint_acc]; [lia|..];
    (etransitivity; [|apply IH]); lia.
Qed.

(** The loop of [Atoi] on the digits of [d], from a positive [acc], when
    the value stays within [uint64]. *)
Lemma parse_digits_acc d p :
  (Z.pos (Pos.of_uint_acc d p) <= MaxUint64)%Z ->
  parse_digits (NilEmpty.string_of_uint d) (Z.pos p) = DigitsOk (Z.pos (Pos.of_uint_acc d p)).
Proof.
  revert p. induction d as [|d IH|d IH|d IH|d IH|d IH|d IH|d IH|d IH|d IH|d IH];
    intros p; [reflexivity|..];
    cbn [NilEmpty.string_of_uint parse_digits Pos.of_uint_acc]; intros Hmax;
    match goal with
    | |- context [digit_of ?c] =>
        let v := eval vm_compute in (digit_of c) in
        change (digit_of c) with v
    end;
    cbv iota beta zeta;
    match goal with
    | H : (Z.pos (Pos.of_uint_acc _ ?q) <= _)%Z |- context [(_ <? ?a)%Z] =>
        replace a with (Z.pos q) by lia;
        pose proof (of_uint_acc_ge d q);
        destruct (Z.ltb_spec MaxUint64 (Z.pos q)); [lia|]
    end;
    now apply IH.
Qed.

(** The same from 0: leading zeros keep the accumulator at 0. *)
Lemma parse_digits_0 d :
  (Z.of_N (Pos.of_uint d) <= MaxUint64)%Z ->
  parse_digits (NilEmpty.string_of_uint d) 0 = DigitsOk (Z.of_N (Pos.of_uint d)).
Proof.
  induction d as [|d IH|d IH|d IH|d IH|d IH|d IH|d IH|d IH|d IH|d IH];
    [reflexivity|exact IH|..];
    cbn [NilEmpty.string_of_uint parse_digits Pos.of_uint]; intros Hmax;
    match goal with
    | |- context [digit_of ?c] =>
        let v := eval vm_compute in (digit_of c) in
        change (digit_of c) with v
    end;
    cbv iota beta zeta;
    match goal with
    | |- context [(_ <? ?a)%Z] =>
        let b := eval vm_compute in (MaxUint64 <? a)%Z in
        change (MaxUint64 <? a)%Z with b
    end;
    cbv iota;
    match goal with
    | |- parse_digits _ ?a = DigitsOk (Z.of_N (N.pos (Pos.of_uint_acc _ ?q))) =>
        change a with (Z.pos q)
    end;
    now apply parse_digits_acc.
Qed.

(** The digits of a number start with a digit, not with a sign. *)
Lemma string_of_uint_head d :
  d <> Decimal.Nil ->
  exists c rest,
    NilEmpty.string_of_uint d = String c rest /\
    Ascii.eqb c "-" = false /\ Ascii.eqb c "+" = false.
Proof.
  destruct d; [congruence|..]; intros _; eexists _, _; cbn; auto.
Qed.

Lemma to_uint_not_nil p : Pos.to_uint p <> Decimal.Nil.
Proof.
  intros H. pose proof (DecimalPos.Unsigned.of_to p) as E.
  rewrite H in E. discriminate E.
Qed.

(** What [Sprintf_d] prints for a value that is not negative. *)
Lemma Sprintf_d_nonneg z :
  (0 <= z)%Z ->
  exists d, d <> Decimal.Nil /\ Sprintf_d z = NilEmpty.string_of_uint d /\
            Z.of_N (Pos.of_uint d) = z.
Proof.
  intros Hz. pose proof (DecimalZ.of_to z) as E. unfold Sprintf_d.
  destruct z as [|p|p]; [| |lia].
  - exists (Decimal.D0 Decimal.Nil). repeat split. discriminate.
  - exists (Pos.to_uint p). cbn [Z.to_int] in *. split; [apply to_uint_not_nil|].
    split; [|exact E].
    cbn [NilZero.string_of_int NilZero.string_of_uint].
    pose proof (to_uint_not_nil p). now destruct (Pos.to_uint p).
Qed.

(** [Atoi] reads back, without error, every [int] that is not negative. *)
Lemma Atoi_Sprintf_d z :
  (0 <= z <= MaxInt)%Z -> Atoi (Sprintf_d z) = (z, false).
Proof.
  intros [Hz Hmax]. destruct (Sprintf_d_nonneg z Hz) as (d & Hd & -> & E).
  destruct (string_of_uint_head d Hd) as (c & rest & Hs & Hm & Hp).
  unfold Atoi. rewrite Hs, Hm, Hp. cbv zeta. cbn [orb].
  rewrite <- Hs, parse_digits_0, E by (unfold MaxUint64, MaxInt in *; lia).
  destruct (Z.ltb_spec MaxInt z); [lia|].
  destruct (Z.ltb_spec z MinInt); [unfold MinInt in *; lia|]. reflexivity.
Qed.

Lemma Sprintf_d_inj a b :
  (0 <= a <= MaxInt)%Z -> (0 <= b <= MaxInt)%Z -> Sprintf_d a = Sprintf_d b -> a = b.
Proof.
  intros Ha Hb H. apply (f_equal Atoi) in H.
  rewrite !Atoi_Sprintf_d in H by assumption. congruence.
Qed.

(** No wrap-around on an increment that stays below [MaxInt]. *)
Lemma wrap_int_id z : (MinInt <= z <= MaxInt)%Z -> wrap_int z = z.
Proof.
  unfold wrap_int, MinInt, MaxInt. intros H.
  rewrite Z.mod_small; lia.
Qed.

Example Atoi_examples :
  Atoi "41" = (41%Z, false) /\ Atoi "-7" = ((-7)%Z, false) /\ Atoi "+7" = (7%Z, false) /\
  Atoi "" = (0%Z, true) /\ Atoi "4x" = (0%Z, true) /\ Atoi "-" = (0%Z, true) /\
  Atoi "9223372036854775808" = (MaxInt, true) /\
  Atoi "-9223372036854775808" = (MinInt, false) /\
  Atoi "99999999999999999999x" = (MaxInt, true) /\
  Atoi "-99999999999999999999" = (MinInt, true) /\
  Atoi "0000000000000000000000012" = (12%Z, false) /\
  Sprintf_d 42 = "42" /\ Sprintf_d 0 = "0" /\ Sprintf_d (-3) = "-3" /\
  wrap_int (MaxInt + 1) = MinInt.
Proof. vm_compute. repeat split. Qed.

End GoStringsFacts.

(* ===================================================================== *)
(** ** Facts: Parse *)
(* ===================================================================== *)

Module EndpointFacts.
Import GoStrings GoStringsFacts Endpoint.

Example Parse_unix : Parse "unix:///csi/csi.sock" = Done ("unix", "/csi/csi.sock", None).
Proof. reflexivity. Qed.

Example Parse_TCP : Parse "TCP://1.2.3.4:10000" = Done ("TCP", "1.2.3.4:10000", None).
Proof. reflexivity. Qed.

Example Parse_nothing_after : Parse "tcp://" = Done ("", "", Some "Invalid endpoint: tcp://").
Proof. reflexivity. Qed.

Example Parse_path : Parse "/var/run/csi.sock" = Done ("unix", "/var/run/csi.sock", None).
Proof. reflexivity. Qed.

Example Parse_second_separator : Parse "unix://a://b" = Done ("unix", "a://b", None).
Proof. reflexivity. Qed.

Lemma is_scheme_colon_free sch : is_scheme sch -> colon_free sch.
Proof.
  intros [H|H]; apply colon_free_ToLower; rewrite H; simpl;
    repeat split; discriminate.
Qed.

(** The guard of [Parse] holds exactly on the strings with a scheme. *)
Lemma guard_true sch rest :
  is_scheme sch ->
  HasPrefix (ToLower (sch +:+ "://" +:+ rest)) "unix://"
  || HasPrefix (ToLower (sch +:+ "://" +:+ rest)) "tcp://" = true.
Proof.
  intros [H|H]; rewrite ToLower_app, H; reflexivity.
Qed.


(** With a scheme in front, [Parse] splits at the ["://"] after it. *)
Lemma Parse_scheme sch rest :
  is_scheme sch ->
  Parse (sch +:+ "://" +:+ rest) =
  if bool_decide (rest <> EmptyString) then Done (sch, rest, None)
  else Done (EmptyString, EmptyString,
             Some ("Invalid endpoint: " +:+ sch +:+ "://" +:+ rest)).
Proof.
  intros H. unfold Parse. rewrite (guard_true _ _ H).
  cbn [SplitN]. rewrite (cut_scheme _ _ (is_scheme_colon_free _ H)).
  reflexivity.
Qed.



End EndpointFacts.

(* ===================================================================== *)
(** ** Facts: the handlers *)
(* ===================================================================== *)

Module DiskFacts.
Import GoStrings Disk Shape Scenario.

(** Unfold a handler down to the answers of the collaborators. *)
Ltac run_go :=
  unfold publish, unpublish, devPath, NextID, logPanicln, JSON, ctxWrite,
    Error, Kvs0Value, bind, ret, panic, Exec, etcdGet, etcdPut, StatusCode,
    put_chunk, logPrintln, record;
  cbn [fst snd kv trace status body logged].

Lemma unpublish_run env st name node :
  unpublish name node env st =
  let dev := monitor env (trace st) node (device_del_cmd name) in
  let st1 := record (MonitorExec node (device_del_cmd name) dev) st in
  match dev with
  | None => (Done tt, st1)
  | Some _ =>
      let drv := monitor env (trace st1) node (drive_del_cmd name) in
      let st2 := record (MonitorExec node (drive_del_cmd name) drv) st1 in
      match drv with
      | None => (Done tt, st2)
      | Some e =>
          (Done tt,
           {| kv := kv st; trace := trace st2; status := 500;
              body := body st ++ [JSONMessage e];
              logged := logged st ++ ["unpushlish err: " +:+ e] |})
      end
  end.
Proof.
  run_go. destruct (monitor env (trace st) node (device_del_cmd name)); [|reflexivity].
  destruct (monitor env _ node (drive_del_cmd name)); reflexivity.
Qed.


Lemma Count_nil : (Count [] =? 0)%Z = true.
Proof. reflexivity. Qed.

Lemma Count_cons x Kvs : (Count (x :: Kvs) =? 0)%Z = false.
Proof. unfold Count. apply Z.eqb_neq. simpl length. lia. Qed.

Lemma append_empty_r (s : string) : s +:+ "" = s.
Proof.
  induction s as [|c s IH]; [reflexivity|].
  change (String c (s +:+ "") = String c s). now rewrite IH.
Qed.

Lemma append_inj_r (p a b : string) : p +:+ a = p +:+ b -> a = b.
Proof. induction p as [|c p IH]; simpl; [trivial|]. intros [= H]. auto. Qed.

(** *** Unpublish *)

Example unpublish_attached :
  unpublish "vol-a" "host-1" (host []) (fresh ∅) =
  (Done tt, {| kv := ∅; trace := [MonitorExec "host-1" "device_del vol-a" None];
               status := 200; body := []; logged := [] |}).
Proof. reflexivity. Qed.

Example unpublish_backend_only :
  sent (unpublish "vol-a" "host-1" (host ["device_del"]) (fresh ∅)) =
  [MonitorExec "host-1" "device_del vol-a" (Some "rejected");
   MonitorExec "host-1" "drive_del vol-a" None].
Proof. reflexivity. Qed.

(** C2, as stated, fails: on a host that accepts the device detach,
    unpublish stops after it and never sends the backend detach. *)
Lemma backend_detach_not_always_sent :
  ~ backend_detach_sent (host []) ∅ "vol-a" "host-1".
Proof.
  intros [err H]. rewrite unpublish_attached in H. unfold sent in H. simpl in H.
  apply list_elem_of_singleton in H. discriminate H.
Qed.

(** C2, amended. Unpublish first sends the device detach.  If the host
    accepts it, nothing else is sent and the request succeeds.  If the
    host refuses it, the backend detach is sent: when that one is
    accepted the request succeeds all the same (status untouched, empty
    body), and only when both are refused is the answer status 500 with
    the second error as message. *)
Theorem unpublish_detaches (env : Env) (store : gmap string string) (name node : string) :
  let r := unpublish name node env (fresh store) in
  let dev := monitor env [] node (device_del_cmd name) in
  let first := MonitorExec node (device_del_cmd name) dev in
  fst r = Done tt /\ kv (snd r) = store /\
  match dev with
  | None => sent r = [first] /\ status (snd r) = 200%Z /\ body (snd r) = []
  | Some _ =>
      let drv := monitor env [first] node (drive_del_cmd name) in
      sent r = [first; MonitorExec node (drive_del_cmd name) drv] /\
      match drv with
      | None => status (snd r) = 200%Z /\ body (snd r) = []
      | Some e => status (snd r) = 500%Z /\ body (snd r) = [JSONMessage e]
      end
  end.
Proof.
  cbv zeta. rewrite unpublish_run. unfold sent, record, fresh. cbn [trace app].
  destruct (monitor env [] node (device_del_cmd name)) as [e1|]; cbn.
  - destruct (monitor env _ node (drive_del_cmd name)) as [e2|]; cbn; auto.
  - auto.
Qed.

(** [unpublish_detaches] where the device detach is refused and the
    backend detach accepted. *)
Lemma unpublish_detaches_witness :
  let r := unpublish "vol-a" "host-1" (host ["device_del"]) (fresh ∅) in
  fst r = Done tt /\ status (snd r) = 200%Z /\
  sent r = [MonitorExec "host-1" "device_del vol-a" (Some "rejected");
            MonitorExec "host-1" "drive_del vol-a" None].
Proof.
  pose proof (unpublish_detaches (host ["device_del"]) ∅ "vol-a" "host-1") as H.
  cbv zeta in H. destruct H as (H1 & _ & H2). split; [exact H1|].
  destruct H2 as (H2 & H3 & _). split; [exact H3 | exact H2].
Defined.

(** *** NextID, alone *)

Lemma NextID_absent env store :
  store !! idKey = None -> etcd_fault env [] = None ->
  NextID env (fresh store) =
  let put := etcd_fault env [EtcdGet idKey (GetOk [])] in
  (Done "0",
   {| kv := match put with Some _ => store | None => <[idKey := "1"]> store end;
      trace := [EtcdGet idKey (GetOk []); EtcdPut idKey "1" put];
      status := 200; body := []; logged := [] |}).
Proof.
  intros Hk Hf. run_go. unfold fresh. cbn [kv trace status body logged app].
  rewrite Hf, Hk, Count_nil. cbn.
  destruct (etcd_fault env [EtcdGet idKey (GetOk [])]); reflexivity.
Qed.

Example NextID_first_run :
  NextID (host []) (fresh ∅) =
  (Done "0",
   {| kv := {[ idKey := "1" ]};
      trace := [EtcdGet idKey (GetOk []); EtcdPut idKey "1" None];
      status := 200; body := []; logged := [] |}).
Proof. rewrite NextID_absent; reflexivity. Qed.

(** C4, as stated, fails: on an empty store the first call returns "0"
    and leaves "1" under the counter key. *)
Lemma first_serial_not_stored : ~ first_serial_is_stored (host []) ∅.
Proof.
  intros H. destruct (H (lookup_empty _)) as (serial & st' & Hrun & Hkv).
  rewrite NextID_first_run in Hrun. injection Hrun as <- <-.
  cbn [kv] in Hkv. rewrite lookup_singleton_eq in Hkv. discriminate Hkv.
Qed.

(** C4, amended. The first call (no counter key, etcd answering) writes
    "1" under the counter key and returns "0": the key holds the serial
    the next call will return, not the one just returned. *)
Theorem NextID_first (env : Env) (store : gmap string string) :
  store !! idKey = None -> etcd_up env ->
  fst (NextID env (fresh store)) = Done "0" /\
  kv (snd (NextID env (fresh store))) = <[idKey := "1"]> store /\
  trace (snd (NextID env (fresh store))) = [EtcdGet idKey (GetOk []); EtcdPut idKey "1" None].
Proof.
  intros Hk Hup. rewrite (NextID_absent _ _ Hk (Hup _)). cbv zeta.
  rewrite (Hup _). auto.
Qed.


(** [NextID_first] on an empty store. *)
Lemma NextID_first_witness :
  fst (NextID (host []) (fresh ∅)) = Done "0" /\
  kv (snd (NextID (host []) (fresh ∅))) = <[idKey := "1"]> ∅ /\
  trace (snd (NextID (host []) (fresh ∅))) =
    [EtcdGet idKey (GetOk []); EtcdPut idKey "1" None].
Proof.
  apply (NextID_first (host []) ∅); [reflexivity | intros h; reflexivity].
Defined.

(** *** Publish: every run has one of the shapes of [published] *)

Ltac go_step :=
  cbn [fst snd kv trace status body logged app];
  rewrite ?Count_nil, ?Count_cons.

(** Settle the next answer of a collaborator: from a hypothesis when
    there is one, by cases otherwise. *)
Ltac go_case :=
  match goal with
  | H : etcd_up ?e |- context [etcd_fault ?e ?h] => rewrite (H h)
  | H : ?m !! ?k = _ |- context [?m !! ?k] => rewrite H
  | |- context [<[?k := ?v]> ?m !! ?k] => rewrite (lookup_insert_eq m k v)
  | |- context [monitor ?e ?h ?n ?c] => destruct (monitor e h n c)
  | |- context [etcd_fault ?e ?h] => destruct (etcd_fault e h)
  | |- context [@lookup string string (gmap string string) _ ?k ?m] =>
      destruct (m !! k)
  end.

Ltac go_run := run_go; unfold fresh; repeat first [progress go_step | go_case].

Lemma published_intro name node out kv' rest code lines serial :
  resolution name (List.filter is_etcd rest) ->
  attached name node serial (List.filter (fun e => negb (is_etcd e)) rest) out code lines ->
  rest = List.filter is_etcd rest ++ List.filter (fun e => negb (is_etcd e)) rest ->
  published name node
    (out, {| kv := kv'; trace := MonitorExec node (drive_add_cmd name) None :: rest;
             status := code; body := []; logged := lines |}).
Proof.
  intros H1 H2 H3. rewrite H3. now apply publish_resolved with (serial := serial).
Qed.

Ltac resolution_ok :=
  split; [repeat constructor | eexists _, _; reflexivity].

Lemma publish_shape env store name node :
  published name node (publish name node env (fresh store)).
Proof.
  go_run.
  all: first
    [ apply publish_refused
    | apply publish_unresolved; solve [resolution_ok]
    | eapply published_intro; cbn [List.filter is_etcd negb];
      [ solve [resolution_ok] | econstructor | reflexivity ] ].
Qed.

(** The four commands start differently. *)
Lemma device_add_not_drive_add n s n' : device_add_cmd n s <> drive_add_cmd n'.
Proof. discriminate. Qed.

Lemma device_add_not_drive_del n s n' : device_add_cmd n s <> drive_del_cmd n'.
Proof. discriminate. Qed.

Lemma drive_del_not_drive_add n n' : drive_del_cmd n <> drive_add_cmd n'.
Proof. discriminate. Qed.

Lemma device_add_serial n s s' : device_add_cmd n s = device_add_cmd n s' -> s = s'.
Proof.
  unfold device_add_cmd. intros H.
  repeat (apply append_inj_r in H). exact H.
Qed.

Lemma etcd_not_command etcd node cmd err :
  Forall (fun e => is_etcd e = true) etcd -> MonitorExec node cmd err ∉ etcd.
Proof.
  intros H Hin. rewrite Forall_forall in H. apply H in Hin. discriminate Hin.
Qed.


Lemma exec_inj n c e n' c' e' :
  MonitorExec n c e = MonitorExec n' c' e' -> n = n' /\ c = c' /\ e = e'.
Proof. intros [= -> -> ->]. auto. Qed.

(** A refused device attach can only be the event before the last one of
    a resolved run, and the backend detach is its last event. *)
Lemma refused_attach_inv name node out st serial e :
  published name node (out, st) ->
  MonitorExec node (device_add_cmd name serial) (Some e) ∈ trace st ->
  exists etcd drv,
    resolution name etcd /\
    trace st = MonitorExec node (drive_add_cmd name) None :: etcd ++
                 [MonitorExec node (device_add_cmd name serial) (Some e);
                  MonitorExec node (drive_del_cmd name) drv] /\
    body st = [] /\
    attached name node serial
      [MonitorExec node (device_add_cmd name serial) (Some e);
       MonitorExec node (drive_del_cmd name) drv]
      out (status st) (logged st).
Proof.
  intros P Hin. inversion P as [kv' e0 | kv' etcd msg R | kv' etcd ser cmds o c l R A];
    subst; cbn [trace status body logged] in *.
  - apply list_elem_of_singleton, exec_inj in Hin as (_ & H & _).
    now apply device_add_not_drive_add in H.
  - apply elem_of_cons in Hin as [Hin|Hin];
      [apply exec_inj in Hin as (_ & _ & [=])|].
    now apply (etcd_not_command _ _ _ _ (proj1 R)) in Hin.
  - apply elem_of_cons in Hin as [Hin|Hin];
      [apply exec_inj in Hin as (_ & _ & [=])|].
    apply elem_of_app in Hin as [Hin|Hin];
      [now apply (etcd_not_command _ _ _ _ (proj1 R)) in Hin|].
    inversion A as [ | e1 | e1 e2]; subst.
    + apply list_elem_of_singleton, exec_inj in Hin as (_ & _ & [=]).
    + apply elem_of_cons in Hin as [Hin|Hin].
      * apply exec_inj in Hin as (_ & Hc & [= <-]).
        apply device_add_serial in Hc. subst ser.
        exists etcd, None. auto.
      * apply list_elem_of_singleton, exec_inj in Hin as (_ & Hc & _).
        now apply device_add_not_drive_del in Hc.
    + apply elem_of_cons in Hin as [Hin|Hin].
      * apply exec_inj in Hin as (_ & Hc & [= <-]).
        apply device_add_serial in Hc. subst ser.
        exists etcd, (Some e2). auto.
      * apply list_elem_of_singleton, exec_inj in Hin as (_ & Hc & _).
        now apply device_add_not_drive_del in Hc.
Qed.

Example publish_fresh_volume :
  sent (publish "vol-a" "host-1" (host []) (fresh ∅)) =
  [MonitorExec "host-1" (drive_add_cmd "vol-a") None;
   EtcdGet "/xiaomakai/vol-a" (GetOk []);
   EtcdGet "/xiaomakai/id" (GetOk []);
   EtcdPut "/xiaomakai/id" "1" None;
   EtcdPut "/xiaomakai/vol-a" "0" None;
   EtcdGet "/xiaomakai/vol-a" (GetOk [("/xiaomakai/vol-a", "0")]);
   MonitorExec "host-1" "device_add virtio-blk-pci,drive=vol-a,id=vol-a,serial=0" None].
Proof. vm_compute. reflexivity. Qed.

Example publish_both_refused :
  let r := publish "vol-b" "host-2" (host ["device_add"; "drive_del"]) (fresh ∅) in
  fst r = Panicked ("error: rejected" +:+ newline) /\
  status (snd r) = 200%Z /\ body (snd r) = [].
Proof. vm_compute. auto. Qed.

(** What the slip in the failure branch does: [err] was overwritten by
    the (nil) result of the detach, so [err.Error()] dereferences nil. *)
Example publish_attach_refused :
  let r := publish "vol-b" "host-2" (host ["device_add"]) (fresh ∅) in
  fst r = Panicked nil_dereference /\ status (snd r) = 500%Z /\ body (snd r) = [].
Proof. vm_compute. auto. Qed.

(** C3, as stated, fails: with the device attach and the compensating
    detach both refused, the handler panics and answers nothing. *)
Lemma publish_dirty_panics :
  ~ publish_answers_failure (host ["device_add"; "drive_del"]) ∅ "vol-b" "host-2".
Proof.
  intros (st' & H & _).
  assert (fst (publish "vol-b" "host-2" (host ["device_add"; "drive_del"]) (fresh ∅))
          = Done tt) as F by now rewrite H.
  vm_compute in F. discriminate F.
Qed.

(** C3, amended. When the device attach is refused and the compensating
    backend detach is refused too, the handler logs "error: " followed
    by the detach error and panics with that line ([log.Panicln]); no
    status is set and nothing is written to the response.  (What the
    handler does when the compensating detach is accepted is left out.) *)
Theorem publish_double_failure (env : Env) (store : gmap string string)
    (name node serial e e' : string) :
  let r := publish name node env (fresh store) in
  MonitorExec node (device_add_cmd name serial) (Some e) ∈ sent r ->
  MonitorExec node (drive_del_cmd name) (Some e') ∈ sent r ->
  fst r = Panicked ("error: " +:+ e' +:+ newline) /\
  status (snd r) = 200%Z /\ body (snd r) = [] /\
  logged (snd r) = ["error: " +:+ e'].
Proof.
  cbv zeta. unfold sent. pose proof (publish_shape env store name node) as P.
  destruct (publish name node env (fresh store)) as [out st]. cbn [fst snd].
  intros Ha Hd.
  destruct (refused_attach_inv _ _ _ _ _ _ P Ha) as (etcd & drv & R & T & B & A).
  rewrite T in Hd.
  apply elem_of_cons in Hd as [Hd|Hd];
    [apply exec_inj in Hd as (_ & Hc & _); now apply drive_del_not_drive_add in Hc|].
  apply elem_of_app in Hd as [Hd|Hd];
    [now apply (etcd_not_command _ _ _ _ (proj1 R)) in Hd|].
  apply elem_of_cons in Hd as [Hd|Hd];
    [apply exec_inj in Hd as (_ & Hc & _); symmetry in Hc;
     now apply device_add_not_drive_del in Hc|].
  apply list_elem_of_singleton, exec_inj in Hd as (_ & _ & <-).
  inversion A; subst. auto.
Qed.

(** [publish_double_failure] on a host that refuses both commands. *)
Lemma publish_double_failure_witness :
  let r := publish "vol-b" "host-2" (host ["device_add"; "drive_del"]) (fresh ∅) in
  fst r = Panicked ("error: rejected" +:+ newline) /\
  status (snd r) = 200%Z /\ body (snd r) = [] /\
  logged (snd r) = ["error: rejected"].
Proof.
  apply (publish_double_failure (host ["device_add"; "drive_del"]) ∅
           "vol-b" "host-2" "0" "rejected" "rejected");
    vm_compute; set_solver.
Defined.




(** *** Publish: the order of the requests *)

Lemma filter_etcd_split etcd cmds :
  Forall (fun ev => is_etcd ev = true) etcd ->
  Forall (fun ev => is_etcd ev = false) cmds ->
  List.filter is_etcd (etcd ++ cmds) = etcd /\
  List.filter is_command (etcd ++ cmds) = cmds.
Proof.
  intros He Hc. induction He as [|ev etcd Hev He IH]; cbn [app List.filter].
  - induction Hc as [|ev cmds Hev Hc IH]; cbn [List.filter]; [auto|].
    unfold is_command at 1. rewrite Hev. cbn [negb].
    destruct IH as [-> ->]. auto.
  - unfold is_command at 1. rewrite Hev. cbn [negb].
    destruct IH as [-> ->]. auto.
Qed.

Lemma attached_commands name node serial cmds out code lines :
  attached name node serial cmds out code lines ->
  Forall (fun ev => is_etcd ev = false) cmds /\
  exists err more, cmds = MonitorExec node (device_add_cmd name serial) err :: more.
Proof.
  intros A. inversion A; subst; (split; [repeat constructor | eauto]).
Qed.

(** With no binding and etcd answering, the requests between the two
    attach commands are: the lookup, [NextID]'s read and write of the
    counter, the write of the binding, and the second lookup, which
    finds the serial just bound. *)
Lemma publish_allocates env store name node :
  store !! bindKey name = None -> etcd_up env ->
  head (sent (publish name node env (fresh store)))
    = Some (MonitorExec node (drive_add_cmd name) None) ->
  exists cnt next serial err more,
    Forall (fun ev => is_etcd ev = false) more /\
    sent (publish name node env (fresh store)) =
      MonitorExec node (drive_add_cmd name) None ::
      [EtcdGet (bindKey name) (GetOk []);
       EtcdGet idKey (GetOk cnt);
       EtcdPut idKey next None;
       EtcdPut (bindKey name) serial None;
       EtcdGet (bindKey name) (GetOk [(bindKey name, serial)])] ++
      MonitorExec node (device_add_cmd name serial) err :: more.
Proof.
  intros Hk Hup. unfold sent. go_run; cbn [head]; intros Hd;
    try discriminate Hd;
    do 5 eexists; (split; [|reflexivity]); repeat constructor.
Qed.

Example publish_order_fresh :
  List.filter is_etcd (sent (publish "vol-a" "host-1" (host []) (fresh ∅))) =
  [EtcdGet "/xiaomakai/vol-a" (GetOk []);
   EtcdGet "/xiaomakai/id" (GetOk []);
   EtcdPut "/xiaomakai/id" "1" None;
   EtcdPut "/xiaomakai/vol-a" "0" None;
   EtcdGet "/xiaomakai/vol-a" (GetOk [("/xiaomakai/vol-a", "0")])].
Proof. vm_compute. reflexivity. Qed.

(** C5, as stated, fails: the backend attach is sent before the binding
    is looked up. *)
Lemma lookup_follows_backend_attach :
  ~ lookup_precedes_commands "vol-a"
      (sent (publish "vol-a" "host-1" (host []) (fresh ∅))).
Proof.
  intros H.
  edestruct (H [] "host-1" (drive_add_cmd "vol-a") None) as [r Hr];
    [rewrite publish_fresh_volume; reflexivity|].
  now apply elem_of_nil in Hr.
Qed.

(** C5, amended. Publish first sends the backend attach.  If the host
    refuses it, nothing else is requested: no lookup, no allocation.  If
    the host accepts it, the etcd requests follow, the lookup of the
    binding first (and, when there is no binding and etcd answers, the
    read and write of the counter, the write of the binding and a second
    lookup); only after them, if it is sent at all, comes the device
    attach, and it carries the serial so bound. *)
Theorem publish_order (env : Env) (store : gmap string string) (name node : string) :
  let r := publish name node env (fresh store) in
  let etcd := List.filter is_etcd (sent r) in
  exists d cmds,
    sent r = MonitorExec node (drive_add_cmd name) d :: etcd ++ cmds /\
    Forall (fun ev => is_etcd ev = false) cmds /\
    match d with
    | Some _ => etcd = [] /\ cmds = []
    | None =>
        (exists res more, etcd = EtcdGet (bindKey name) res :: more) /\
        (cmds = [] \/
         exists serial err more,
           cmds = MonitorExec node (device_add_cmd name serial) err :: more) /\
        (store !! bindKey name = None -> etcd_up env ->
         exists cnt next serial err more,
           etcd = [EtcdGet (bindKey name) (GetOk []);
                   EtcdGet idKey (GetOk cnt);
                   EtcdPut idKey next None;
                   EtcdPut (bindKey name) serial None;
                   EtcdGet (bindKey name) (GetOk [(bindKey name, serial)])] /\
           cmds = MonitorExec node (device_add_cmd name serial) err :: more)
    end.
Proof.
  cbv zeta. pose proof (publish_allocates env store name node) as Alloc.
  pose proof (publish_shape env store name node) as P. unfold sent in *.
  destruct (publish name node env (fresh store)) as [out st]. cbn [fst snd] in *.
  inversion P as [kv' e0 | kv' etcd msg R | kv' etcd ser cmds o c l R A];
    subst; cbn [trace head] in *.
  - exists (Some e0), []. cbn. auto.
  - destruct (filter_etcd_split etcd [] (proj1 R) (Forall_nil_2 _)) as [F _].
    rewrite app_nil_r in F.
    exists None, []. cbn [List.filter is_etcd]. rewrite F, app_nil_r.
    split; [reflexivity|]. split; [constructor|].
    split; [exact (proj2 R)|]. split; [now left|].
    intros Hk Hup.
    destruct (Alloc Hk Hup eq_refl) as (cnt & next & serial & err & more & _ & E).
    injection E as E. exfalso.
    assert (MonitorExec node (device_add_cmd name serial) err ∈ etcd) as Hin.
    { rewrite E. repeat (apply elem_of_cons; first [left; reflexivity | right]). }
    now apply (etcd_not_command _ _ _ _ (proj1 R)) in Hin.
  - destruct (attached_commands _ _ _ _ _ _ _ A) as (Hc & err & more & Ec).
    destruct (filter_etcd_split _ _ (proj1 R) Hc) as [F1 F2].
    exists None, cmds. cbn [List.filter is_etcd]. rewrite F1.
    split; [reflexivity|]. split; [exact Hc|].
    split; [exact (proj2 R)|]. split; [right; eauto|].
    intros Hk Hup.
    destruct (Alloc Hk Hup eq_refl) as (cnt & next & serial & err' & more' & Hm & E).
    injection E as E.
    destruct (filter_etcd_split
                [EtcdGet (bindKey name) (GetOk []);
                 EtcdGet idKey (GetOk cnt);
                 EtcdPut idKey next None;
                 EtcdPut (bindKey name) serial None;
                 EtcdGet (bindKey name) (GetOk [(bindKey name, serial)])]
                (MonitorExec node (device_add_cmd name serial) err' :: more'))
      as [G1 G2];
      [repeat constructor | constructor; [reflexivity | exact Hm] |].
    cbn [app] in G1, G2. rewrite <- E, F1 in G1. rewrite <- E, F2 in G2.
    exists cnt, next, serial, err', more'. auto.
Qed.

(** [publish_order] on a volume never published before: the lookup and
    the allocation sit between the two attach commands. *)
Lemma publish_order_witness :
  exists cnt next serial,
    List.filter is_etcd (sent (publish "vol-a" "host-1" (host []) (fresh ∅))) =
      [EtcdGet (bindKey "vol-a") (GetOk []);
       EtcdGet idKey (GetOk cnt);
       EtcdPut idKey next None;
       EtcdPut (bindKey "vol-a") serial None;
       EtcdGet (bindKey "vol-a") (GetOk [(bindKey "vol-a", serial)])].
Proof.
  destruct (publish_order (host []) ∅ "vol-a" "host-1") as (d & cmds & H1 & _ & H3).
  destruct d as [e|].
  - exfalso. rewrite publish_fresh_volume in H1 at 1. discriminate H1.
  - destruct H3 as (_ & _ & H3).
    destruct (H3 (lookup_empty _) (fun _ => eq_refl))
      as (cnt & next & serial & err & more & E & _).
    exists cnt, next, serial. exact E.
Defined.

(** *** Publish on a volume that has a binding *)

Example publish_again :
  let r := publish "vol-a" "host-1" (host [])
             (fresh (kv (snd (publish "vol-a" "host-1" (host []) (fresh ∅))))) in
  sent r =
    [MonitorExec "host-1" (drive_add_cmd "vol-a") None;
     EtcdGet "/xiaomakai/vol-a" (GetOk [("/xiaomakai/vol-a", "0")]);
     MonitorExec "host-1" "device_add virtio-blk-pci,drive=vol-a,id=vol-a,serial=0" None]
  /\ kv (snd r) !! idKey = Some "1".
Proof. vm_compute. auto. Qed.



(** *** The device path *)

Lemma devPath_run env store name :
  etcd_fault env [] = None ->
  devPath name env (fresh store) =
  match store !! bindKey name with
  | None =>
      let message := "volume " +:+ name +:+ " not found! not published yet?" in
      (Done tt,
       {| kv := store; trace := [EtcdGet (bindKey name) (GetOk [])];
          status := 500; body := [JSONMessage message]; logged := [message] |})
  | Some serial =>
      (Done tt,
       {| kv := store;
          trace := [EtcdGet (bindKey name) (GetOk [(bindKey name, serial)])];
          status := 200; body := [Raw devPathPrefix; Raw serial]; logged := [] |})
  end.
Proof.
  intros Hf. run_go. unfold fresh. cbn [kv trace status body logged app].
  rewrite Hf. destruct (store !! bindKey name) as [serial|];
    rewrite ?Count_nil, ?Count_cons; reflexivity.
Qed.

Example devPath_unpublished :
  let r := devPath "vol-a" (host []) (fresh ∅) in
  fst r = Done tt /\ status (snd r) = 500%Z /\
  body (snd r) = [JSONMessage "volume vol-a not found! not published yet?"] /\
  logged (snd r) = ["volume vol-a not found! not published yet?"].
Proof. vm_compute. auto. Qed.

Example devPath_published :
  written (body (snd (devPath "vol-a" (host [])
                        (fresh (kv (snd (publish "vol-a" "host-1" (host []) (fresh ∅))))))))
  = "/dev/disk/by-id/virtio-0".
Proof. vm_compute. reflexivity. Qed.

(** C8, as stated, fails: the lookup of a volume without binding is
    answered with status 500 and its message goes to the log. *)
Lemma miss_is_an_error : ~ miss_is_routine (host []) ∅ "vol-a".
Proof.
  intros H. destruct (H (lookup_empty _)) as [Hs _].
  apply Hs. vm_compute. reflexivity.
Qed.

(** C8, amended. When etcd answers and holds no binding for the volume,
    the lookup ends without panic, sets status 500, answers the JSON
    message "volume <name> not found! not published yet?", writes no
    path, and gives the same message to the log. *)
Theorem devPath_unbound (env : Env) (store : gmap string string) (name : string) :
  store !! bindKey name = None -> etcd_fault env [] = None ->
  let r := devPath name env (fresh store) in
  let message := "volume " +:+ name +:+ " not found! not published yet?" in
  fst r = Done tt /\ status (snd r) = 500%Z /\
  body (snd r) = [JSONMessage message] /\ written (body (snd r)) = "" /\
  logged (snd r) = [message] /\ kv (snd r) = store.
Proof.
  intros Hk Hf. cbv zeta. rewrite (devPath_run _ _ _ Hf), Hk.
  repeat split.
Qed.

(** [devPath_unbound] on an empty store. *)
Lemma devPath_unbound_witness :
  let r := devPath "vol-a" (host []) (fresh ∅) in
  fst r = Done tt /\ status (snd r) = 500%Z /\
  body (snd r) = [JSONMessage "volume vol-a not found! not published yet?"] /\
  written (body (snd r)) = "" /\
  logged (snd r) = ["volume vol-a not found! not published yet?"] /\
  kv (snd r) = ∅.
Proof.
  apply (devPath_unbound (host []) ∅ "vol-a"); reflexivity.
Defined.

(** C9. For a volume bound to [serial] (etcd answering), the lookup
    always ends normally with status 200 and writes exactly the prefix
    "/dev/disk/by-id/virtio-" followed by the serial as stored: the path
    depends on the serial alone, and two lookups that write the same
    path found the same serial. *)
Theorem devPath_resolves (env : Env) (store : gmap string string) (name serial : string) :
  store !! bindKey name = Some serial -> etcd_fault env [] = None ->
  let r := devPath name env (fresh store) in
  fst r = Done tt /\ status (snd r) = 200%Z /\
  written (body (snd r)) = "/dev/disk/by-id/virtio-" +:+ serial /\
  (forall env' store' name' serial',
     store' !! bindKey name' = Some serial' -> etcd_fault env' [] = None ->
     written (body (snd (devPath name' env' (fresh store')))) = written (body (snd r)) ->
     serial' = serial).
Proof.
  intros Hk Hf. cbv zeta. rewrite (devPath_run _ _ _ Hf), Hk.
  cbn [fst snd status body written].
  assert (forall s, devPathPrefix +:+ s +:+ "" = "/dev/disk/by-id/virtio-" +:+ s) as W.
  { intros s. now rewrite append_empty_r. }
  rewrite W. repeat split.
  intros env' store' name' serial' Hk' Hf'.
  rewrite (devPath_run _ _ _ Hf'), Hk'. cbn [fst snd status body written].
  rewrite W. apply append_inj_r.
Qed.

(** [devPath_resolves] on a store that binds "vol-a" to "7". *)
Lemma devPath_resolves_witness :
  written (body (snd (devPath "vol-a" (host []) (fresh {[ bindKey "vol-a" := "7" ]}))))
  = "/dev/disk/by-id/virtio-7".
Proof.
  apply (devPath_resolves (host []) {[ bindKey "vol-a" := "7" ]} "vol-a" "7");
    vm_compute; reflexivity.
Defined.

End DiskFacts.

(* ===================================================================== *)
(** ** Facts: NextID under concurrency *)
(* ===================================================================== *)

Module AllocFacts.
Import GoStrings GoStringsFacts Disk Scenario Alloc.

Lemma NextID_present env kv0 old :
  kv0 !! idKey = Some old -> etcd_up env ->
  NextID env (fresh kv0) =
  (Done old,
   {| kv := <[idKey := Sprintf_d (wrap_int (fst (Atoi old) + 1))]> kv0;
      trace := [EtcdGet idKey (GetOk [(idKey, old)]);
                EtcdPut idKey (Sprintf_d (wrap_int (fst (Atoi old) + 1))) None];
      status := 200; body := []; logged := [] |}).
Proof.
  intros Hk Hup. DiskFacts.run_go. unfold fresh.
  cbn [kv trace status body logged app].
  rewrite (Hup _), Hk, DiskFacts.Count_cons. cbn [kv trace status body logged app].
  rewrite (Hup _). reflexivity.
Qed.

Lemma lone_thread kv0 p :
  run [0; 0; 0] (start kv0 [p]) =
  match kv0 !! idKey with
  | Some old =>
      {| store := <[idKey := Sprintf_d (wrap_int (fst (Atoi old) + 1))]> kv0;
         threads := [{| proc := p; at_pc := Returned old |}] |}
  | None =>
      {| store := <[idKey := "1"]> kv0;
         threads := [{| proc := p; at_pc := Returned "0" |}] |}
  end.
Proof.
  unfold run, start. cbn [foldl fmap list_fmap].
  unfold step at 3.
  cbn [threads lookup list_lookup at_pc proc mutex_free forallb holds].
  rewrite Nat.eqb_refl. cbn [andb negb move threads insert list_insert proc store].
  unfold step at 2.
  cbn [threads lookup list_lookup at_pc proc move insert list_insert store].
  unfold step.
  cbn [threads lookup list_lookup at_pc proc move insert list_insert store].
  destruct (kv0 !! idKey); reflexivity.
Qed.

(** One thread alone takes its three steps to the result of [NextID]:
    the same store, the same serial. *)
Lemma thread_refines_NextID env kv0 p :
  etcd_up env ->
  let s := run [0; 0; 0] (start kv0 [p]) in
  let r := NextID env (fresh kv0) in
  store s = kv (snd r) /\ Done <$> serials s = [fst r].
Proof.
  intros Hup. cbv zeta. rewrite lone_thread.
  destruct (kv0 !! idKey) as [old|] eqn:Hk.
  - rewrite (NextID_present _ _ _ Hk Hup). cbn. auto.
  - rewrite (DiskFacts.NextID_absent _ _ Hk (Hup _)). cbv zeta. rewrite (Hup _).
    cbn. auto.
Qed.

(** *** Serials under an update of one thread *)

Lemma serials_insert_none (ts : list thread) (i : nat) t t' :
  ts !! i = Some t -> serial_of t = None -> serial_of t' = None ->
  omap serial_of (<[i := t']> ts) = omap serial_of ts.
Proof.
  revert i. induction ts as [|x ts IH]; intros [|i] Hi Ht Ht'; try discriminate.
  - injection Hi as ->. cbn. now rewrite Ht, Ht'.
  - pose proof (IH i Hi Ht Ht') as E. cbn.
    destruct (serial_of x); [f_equal|]; exact E.
Qed.

Lemma serials_insert_some (ts : list thread) (i : nat) t t' v :
  ts !! i = Some t -> serial_of t = None -> serial_of t' = Some v ->
  omap serial_of (<[i := t']> ts) ≡ₚ v :: omap serial_of ts.
Proof.
  revert i. induction ts as [|x ts IH]; intros [|i] Hi Ht Ht'; try discriminate.
  - injection Hi as ->. cbn. now rewrite Ht, Ht'.
  - pose proof (IH i Hi Ht Ht') as E. cbn.
    destruct (serial_of x) as [y|]; [|exact E].
    etransitivity; [apply Permutation_skip, E|apply Permutation_swap].
Qed.

Lemma serials_lt (ts : list thread) (i : nat) t :
  ts !! i = Some t -> serial_of t = None -> length (omap serial_of ts) < length ts.
Proof.
  assert (forall l : list thread, length (omap serial_of l) <= length l) as Hle.
  { induction l as [|x l IH]; cbn; [lia|]. destruct (serial_of x); cbn; lia. }
  revert i. induction ts as [|x ts IH]; intros [|i] Hi Ht; try discriminate.
  - injection Hi as ->. cbn. rewrite Ht. specialize (Hle ts). lia.
  - cbn. specialize (IH i Hi Ht). destruct (serial_of x); cbn; lia.
Qed.

Lemma handed_out_length n0 c : length (handed_out n0 c) = c.
Proof. unfold handed_out. now rewrite length_fmap, length_seq. Qed.

Lemma handed_out_S n0 c :
  Sprintf_d (n0 + Z.of_nat c) :: handed_out n0 c ≡ₚ handed_out n0 (S c).
Proof.
  unfold handed_out. rewrite seq_S, fmap_app. cbn [fmap list_fmap].
  apply Permutation_cons_append.
Qed.

(** With the mutex of [p] free, no thread of [p] holds it. *)
Lemma mutex_free_holds p (ts : list thread) (i : nat) t :
  mutex_free p ts = true -> ts !! i = Some t -> proc t = p -> holds t = false.
Proof.
  unfold mutex_free. rewrite forallb_forall. intros H Hi Hp.
  apply list_elem_of_lookup_2, list_elem_of_In in Hi. apply H in Hi.
  rewrite Hp, Nat.eqb_refl in Hi. now destruct (holds t).
Qed.

Section OneProcess.

(** All calls are made in process [p]; the counter stands at [n0]; the
    serials to hand out fit into an [int]. *)
Variables (p : nat) (n0 : Z) (N : nat).
Hypothesis n0_nonneg : (0 <= n0)%Z.
Hypothesis fits : (n0 + Z.of_nat N <= MaxInt)%Z.

Lemma invariant_start kv0 procs :
  Forall (fun q => q = p) procs -> length procs = N -> counter_is kv0 n0 ->
  invariant p n0 N (start kv0 procs).
Proof.
  intros Hp Hn Hc. unfold start.
  assert (forall i t, ((fun q => {| proc := q; at_pc := Idle |}) <$> procs) !! i = Some t ->
                      at_pc t = Idle) as Hidle.
  { intros i t. rewrite list_lookup_fmap. destruct (procs !! i); [|discriminate].
    now intros [= <-]. }
  constructor; cbn [threads store].
  - apply Forall_fmap. eapply Forall_impl; [exact Hp|]. now intros q ->.
  - now rewrite length_fmap.
  - intros i j ti tj Hi _ Hh _. apply Hidle in Hi. unfold holds in Hh.
    rewrite Hi in Hh. discriminate.
  - intros i t r Hi Hr. apply Hidle in Hi. congruence.
  - exists 0. rewrite Z.add_0_r. split; [exact Hc|].
    unfold serials. cbn [threads]. clear. induction procs; [reflexivity|exact IHprocs].
Qed.

Lemma invariant_step i s : invariant p n0 N s -> invariant p n0 N (step i s).
Proof.
  intros [Hp Hl Hm Hr (c & Hc & Hs)]. unfold step.
  destruct (threads s !! i) as [t|] eqn:Ht; [|constructor; eauto].
  assert (proc t = p) as Hpt by (eapply Forall_lookup_1 in Hp; eauto).
  assert (forall to, Forall (fun t => proc t = p) (move i t to s)) as Hp'.
  { intros to. apply Forall_insert; [exact Hp|exact Hpt]. }
  assert (forall to, length (move i t to s) = N) as Hl'.
  { intros to. unfold move. now rewrite length_insert. }
  destruct (at_pc t) as [| |r|v] eqn:Hpc.
  - (* m.Lock() *)
    destruct (mutex_free (proc t) (threads s)) eqn:Hfree; [|constructor; eauto].
    rewrite Hpt in Hfree.
    assert (forall j tj, threads s !! j = Some tj -> holds tj = false) as Hnone.
    { intros j tj Hj. eapply mutex_free_holds; [exact Hfree|exact Hj|].
      eapply Forall_lookup_1 in Hp; eauto. }
    constructor; cbn [threads store]; auto.
    + intros a b ta tb Ha Hb Hha Hhb. unfold move in Ha, Hb.
      apply list_lookup_insert_Some in Ha, Hb.
      destruct Ha as [(-> & _)|(_ & Ha)], Hb as [(-> & _)|(_ & Hb)];
        [reflexivity|..].
      * apply Hnone in Hb. congruence.
      * apply Hnone in Ha. congruence.
      * apply Hnone in Ha. congruence.
    + intros a ta r Ha Hra. unfold move in Ha.
      apply list_lookup_insert_Some in Ha.
      destruct Ha as [(_ & <- & _)|(_ & Ha)]; [discriminate Hra|eauto].
    + exists c. split; [exact Hc|]. unfold serials, move. cbn [threads].
      rewrite (serials_insert_none _ _ t); auto.
      unfold serial_of. now rewrite Hpc.
  - (* etcdcli.Get *)
    assert (holds t = true) as Hht by (unfold holds; now rewrite Hpc).
    constructor; cbn [threads store]; auto.
    + intros a b ta tb Ha Hb Hha Hhb. unfold move in Ha, Hb.
      apply list_lookup_insert_Some in Ha, Hb.
      destruct Ha as [(-> & _)|(Hna & Ha)], Hb as [(-> & _)|(Hnb & Hb)];
        [reflexivity|..].
      * exact (Hm _ _ _ _ Ht Hb Hht Hhb).
      * symmetry. exact (Hm _ _ _ _ Ht Ha Hht Hha).
      * exact (Hm _ _ _ _ Ha Hb Hha Hhb).
    + intros a ta r Ha Hra. unfold move in Ha.
      apply list_lookup_insert_Some in Ha.
      destruct Ha as [(_ & <- & _)|(_ & Ha)]; [|eauto].
      cbn [at_pc] in Hra. injection Hra as <-. reflexivity.
    + exists c. split; [exact Hc|]. unfold serials, move. cbn [threads].
      rewrite (serials_insert_none _ _ t); auto.
      unfold serial_of. now rewrite Hpc.
  - (* etcdcli.Put, return, m.Unlock() *)
    assert (holds t = true) as Hht by (unfold holds; now rewrite Hpc).
    assert (serial_of t = None) as Hst by (unfold serial_of; now rewrite Hpc).
    pose proof (Hr _ _ _ Ht Hpc) as Hread.
    assert (c < N) as Hlt.
    { rewrite <- Hl, <- (handed_out_length n0 c), <- Hs. eapply serials_lt; eauto. }
    assert (forall to, holds {| proc := proc t; at_pc := Returned to |} = false) as Hrel
      by reflexivity.
    assert (forall to kv', one_holder (move i t (Returned to) s) /\
              reads_current {| store := kv'; threads := move i t (Returned to) s |}) as Hrest.
    { intros to kv'. split.
      - intros a b ta tb Ha Hb Hha Hhb. unfold move in Ha, Hb.
        apply list_lookup_insert_Some in Ha, Hb.
        destruct Ha as [(_ & <- & _)|(_ & Ha)]; [discriminate Hha|].
        destruct Hb as [(_ & <- & _)|(_ & Hb)]; [discriminate Hhb|].
        exact (Hm _ _ _ _ Ha Hb Hha Hhb).
      - intros a ta r' Ha Hra. cbn [threads] in Ha. unfold move in Ha.
        apply list_lookup_insert_Some in Ha.
        destruct Ha as [(_ & <- & _)|(Hne & Ha)]; [discriminate Hra|].
        exfalso. apply Hne. apply (Hm _ _ _ _ Ht Ha Hht).
        unfold holds. now rewrite Hra. }
    destruct r as [old|].
    + destruct Hc as [[Hnone _]|Hsome]; [congruence|].
      assert (old = Sprintf_d (n0 + Z.of_nat c)) as -> by congruence.
      rewrite Atoi_Sprintf_d by lia. cbn [fst].
      rewrite wrap_int_id by (unfold MinInt; lia).
      destruct (Hrest (Sprintf_d (n0 + Z.of_nat c))
                  (<[Disk.idKey := Sprintf_d (n0 + Z.of_nat c + 1)]> (store s))) as [H1 H2].
      constructor; cbn [threads store]; auto.
      exists (S c). split.
      * right. rewrite lookup_insert_eq. do 2 f_equal. lia.
      * unfold serials, move. cbn [threads].
        rewrite (serials_insert_some _ _ t _ (Sprintf_d (n0 + Z.of_nat c))); auto.
        fold (serials s). rewrite Hs. apply handed_out_S.
    + destruct Hc as [[_ Hz]|Hsome]; [|congruence].
      assert (n0 = 0%Z /\ c = 0) as [-> ->] by lia.
      destruct (Hrest "0" (<[Disk.idKey := "1"]> (store s))) as [H1 H2].
      constructor; cbn [threads store]; auto.
      exists 1. split.
      * right. rewrite lookup_insert_eq. reflexivity.
      * unfold serials, move. cbn [threads].
        rewrite (serials_insert_some _ _ t _ "0"); auto.
        fold (serials s). rewrite Hs. reflexivity.
  - constructor; eauto.
Qed.

Lemma invariant_run sched s : invariant p n0 N s -> invariant p n0 N (run sched s).
Proof.
  revert s. induction sched as [|i sched IH]; intros s H; [exact H|].
  apply IH, invariant_step, H.
Qed.

Lemma invariant_NoDup s : invariant p n0 N s -> NoDup (serials s).
Proof.
  intros [Hp Hl Hm Hr (c & Hc & Hs)]. rewrite Hs.
  assert (c <= N) as Hle.
  { rewrite <- Hl, <- (handed_out_length n0 c), <- Hs. unfold serials.
    clear. induction (threads s) as [|x l IH]; cbn; [lia|].
    destruct (serial_of x); cbn; lia. }
  unfold handed_out. apply NoDup_fmap_2_strong; [|apply NoDup_seq].
  intros a b Ha Hb E. apply elem_of_seq in Ha, Hb.
  apply Sprintf_d_inj in E; lia.
Qed.

End OneProcess.

Example two_processes_interleaved :
  let s := run [0; 1; 0; 1; 0; 1] (start ∅ [0; 1]) in
  all_returned s = true /\ serials s = ["0"; "0"] /\ store s !! idKey = Some "1".
Proof. vm_compute. auto. Qed.

Example two_processes_in_turn :
  serials (run [0; 0; 0; 1; 1; 1] (start ∅ [0; 1])) = ["0"; "1"].
Proof. vm_compute. reflexivity. Qed.

(** Inside one process the second caller waits for the mutex. *)
Example one_process_interleaved :
  let s := run [0; 1; 0; 1; 0; 1; 1; 1] (start ∅ [0; 0]) in
  all_returned s = true /\ serials s = ["0"; "1"] /\ store s !! idKey = Some "2".
Proof. vm_compute. auto. Qed.

(** C1, as stated, fails: a call in one process and a call in another
    can both read the counter before either writes it (the mutex is per
    process and the write is unconditional); both then return "0". *)
Lemma two_processes_same_serial :
  ~ serials_distinct ∅ [0; 1] [0; 1; 0; 1; 0; 1].
Proof.
  unfold serials_distinct. intros H.
  destruct two_processes_interleaved as (Hall & Hser & _).
  specialize (H Hall). rewrite Hser in H.
  apply NoDup_cons in H as [Hin _]. apply Hin, list_elem_of_singleton. reflexivity.
Qed.

(** C1, amended. When all calls of [NextID] are made by threads of one
    process, the store answers every request, nothing else writes the
    counter key, and the counter key is absent or holds the decimal form
    of some [n0 >= 0] with [n0] plus the number of calls within [int],
    then under every schedule the serials returned are pairwise
    distinct.  The mutex of the process is what orders the calls; the
    write itself is an unconditional put. *)
Theorem one_process_serials_distinct (p : nat) (n0 : Z) (kv0 : gmap string string)
    (procs sched : list nat) :
  (0 <= n0)%Z -> (n0 + Z.of_nat (length procs) <= MaxInt)%Z ->
  Forall (fun q => q = p) procs -> counter_is kv0 n0 ->
  NoDup (serials (run sched (start kv0 procs))).
Proof.
  intros H0 Hfit Hp Hc.
  apply (invariant_NoDup p n0 (length procs) H0 Hfit).
  apply invariant_run; [exact H0|exact Hfit|].
  now apply invariant_start.
Qed.

(** [one_process_serials_distinct] for three calls in one process, on an
    empty store, under an interleaved schedule. *)
Lemma one_process_serials_distinct_witness :
  NoDup (serials (run [0; 1; 2; 2; 1; 0; 1; 0; 2; 2; 1; 1; 2; 2] (start ∅ [0; 0; 0]))).
Proof.
  apply (one_process_serials_distinct 0 0 ∅ [0; 0; 0]).
  - lia.
  - vm_compute. discriminate.
  - repeat constructor.
  - left. split; reflexivity.
Defined.

End AllocFacts.

(* ===================================================================== *)
(** ** Facts: Listen and the plugin's main *)
(* ===================================================================== *)

Module ListenerFacts.
Import GoStrings GoStringsFacts Endpoint EndpointFacts Listener.


Lemma Parse_unix_scheme rest :
  rest <> "" -> Parse ("unix://" +:+ rest) = Done ("unix", rest, None).
Proof.
  intros Hr. change ("unix://" +:+ rest) with ("unix" +:+ "://" +:+ rest).
  rewrite Parse_scheme by (left; reflexivity). now rewrite bool_decide_true.
Qed.

Lemma Listen_unix os ep addr :
  Parse ep = Done ("unix", addr, None) -> serves_socket os ep ("/" +:+ addr).
Proof.
  intros HP. unfold serves_socket, Listen. rewrite HP. cbn [String.eqb].
  change (String.eqb "unix" "unix") with true. cbv iota zeta.
  destruct (os_remove os [] ("/" +:+ addr)); reflexivity.
Qed.

Example Listen_csi_socket :
  Listen clean_os "unix:///csi/csi.sock" =
  Done ({| ret_l := Some ("unix", "//csi/csi.sock");
           ret_cleanup := Some ["//csi/csi.sock"]; ret_err := None |},
        [OsRemove "//csi/csi.sock" (RemoveNotExist "no such file or directory");
         NetListen "unix" "//csi/csi.sock" None]).
Proof. reflexivity. Qed.

Example Listen_tcp :
  Listen clean_os "tcp://127.0.0.1:10000" =
  Done ({| ret_l := Some ("tcp", "127.0.0.1:10000");
           ret_cleanup := Some []; ret_err := None |},
        [NetListen "tcp" "127.0.0.1:10000" None]).
Proof. reflexivity. Qed.



(** X2. On an endpoint that is a scheme word and "://" with nothing
    behind, [Listen] returns the error of [Parse], no listener and no
    cleanup, and asks nothing of the operating system: no file is
    removed, no address is bound. *)
Theorem Listen_invalid_endpoint (os : Os) (sch : string) :
  is_scheme sch ->
  Listen os (sch +:+ "://") =
  Done ({| ret_l := None; ret_cleanup := None;
           ret_err := Some (ErrParse ("Invalid endpoint: " +:+ sch +:+ "://")) |}, []).
Proof.
  intros Hs. unfold Listen.
  change (sch +:+ "://") with (sch +:+ "://" +:+ "") at 1.
  rewrite (Parse_scheme _ _ Hs). rewrite bool_decide_false by (intros H; now apply H).
  reflexivity.
Qed.

(** [Listen_invalid_endpoint] on "tcp://". *)
Lemma Listen_invalid_endpoint_witness :
  Listen clean_os "tcp://" =
  Done ({| ret_l := None; ret_cleanup := None;
           ret_err := Some (ErrParse "Invalid endpoint: tcp://") |}, []).
Proof.
  apply (Listen_invalid_endpoint clean_os "tcp"). right. reflexivity.
Defined.



(** X4. The test for a Unix socket is an exact comparison with "unix".
    For every other spelling of the scheme ("UNIX", "Unix", "tcp",
    "TCP", ...) and a non-empty remainder, [Listen] removes no file,
    hands the scheme as written and the remainder as it is to
    [net.Listen], and returns a cleanup that does nothing. *)
Theorem Listen_other_scheme (os : Os) (sch rest : string) :
  is_scheme sch -> sch <> "unix" -> rest <> "" ->
  let err := net_listen os [] sch rest in
  Listen os (sch +:+ "://" +:+ rest) =
  Done ({| ret_l := match err with None => Some (sch, rest) | Some _ => None end;
           ret_cleanup := Some [];
           ret_err := ErrListen <$> err |},
        [NetListen sch rest err]).
Proof.
  intros Hs Hne Hr. cbv zeta. unfold Listen. rewrite (Parse_scheme _ _ Hs).
  rewrite bool_decide_true by exact Hr.
  apply String.eqb_neq in Hne. rewrite Hne. reflexivity.
Qed.

(** [Listen_other_scheme] on a Unix socket endpoint written in capitals. *)
Lemma Listen_other_scheme_witness :
  Listen clean_os "UNIX://csi/csi.sock" =
  Done ({| ret_l := Some ("UNIX", "csi/csi.sock"); ret_cleanup := Some [];
           ret_err := None |},
        [NetListen "UNIX" "csi/csi.sock" None]).
Proof.
  apply (Listen_other_scheme clean_os "UNIX" "csi/csi.sock");
    [left; reflexivity | discriminate | discriminate].
Defined.

(** X5. The plugin panics when CSI_ENDPOINT or NODE_NAME is empty.
    Otherwise it starts the server on "unix://" followed by the
    endpoint, with the node name as node id; whatever the endpoint
    holds (an "://" of its own included), [Listen] then serves the Unix
    socket at "/" followed by the endpoint, and never fails in [Parse]. *)
Theorem main_serves_socket (os : Os) (endpoint nodeId : string) :
  (endpoint = "" ->
   main endpoint nodeId = Panicked "system environment CSI_ENDPOINT must not empty!") /\
  (endpoint <> "" -> nodeId = "" ->
   main endpoint nodeId = Panicked "system environment NODE_NAME must not empty!") /\
  (endpoint <> "" -> nodeId <> "" ->
   exists csi,
     main endpoint nodeId = Done ("unix://" +:+ endpoint, csi) /\
     NodeID csi = nodeId /\
     serves_socket os ("unix://" +:+ endpoint) ("/" +:+ endpoint)).
Proof.
  split; [|split].
  - intros ->. reflexivity.
  - intros He ->. unfold main. apply String.eqb_neq in He. now rewrite He.
  - intros He Hn. unfold main.
    apply String.eqb_neq in He as He', Hn as Hn'. rewrite He', Hn'.
    eexists. split; [reflexivity|]. split; [reflexivity|].
    apply Listen_unix, Parse_unix_scheme, He.
Qed.

(** [main_serves_socket] with the endpoint of a kubelet plugin
    directory. *)
Lemma main_serves_socket_witness :
  exists csi,
    main "/csi/csi.sock" "node-1" = Done ("unix://" +:+ "/csi/csi.sock", csi) /\
    NodeID csi = "node-1" /\
    serves_socket clean_os ("unix://" +:+ "/csi/csi.sock") ("/" +:+ "/csi/csi.sock").
Proof.
  apply (proj2 (proj2 (main_serves_socket clean_os "/csi/csi.sock" "node-1")));
    discriminate.
Defined.

End ListenerFacts.

(* ===================================================================== *)
(** ** Facts: logGRPC *)
(* ===================================================================== *)

Module GrpcFacts.
Import Grpc.

Example logGRPC_probe_quiet :
  logGRPC 3 (fun _ : string => ("ready", None)) "/csi.v1.Identity/Probe" "probe"
  = (("ready", None), []).
Proof. reflexivity. Qed.

Example logGRPC_verbose :
  snd (logGRPC 5 (fun _ : string => ("", Some "boom")) "/csi.v1.Node/NodeGetInfo" "req")
  = [InfoCall "/csi.v1.Node/NodeGetInfo"; InfoRequest "req"; ErrorLine "boom";
     InfoResponse ""; InfoJSON "/csi.v1.Node/NodeGetInfo" "req" "" "boom" (Some "boom")].
Proof. reflexivity. Qed.

(** X6. [logGRPC] hands back the response and the error of the handler
    untouched.  Whatever the verbosity, an error of the handler is
    logged; below verbosity 5 no line shows the request or the response;
    and a Probe call that succeeds leaves no line at all below
    verbosity 5. *)
Theorem logGRPC_log {Req Resp : Type} (verbosity : Z)
    (handler : Req -> Resp * option string) (method : string) (req : Req) :
  let r := logGRPC verbosity handler method req in
  fst r = handler req /\
  (forall e, snd (handler req) = Some e -> ErrorLine e ∈ snd r) /\
  ((verbosity < 5)%Z -> Forall (fun l => shows_payload l = false) (snd r)) /\
  ((verbosity < 5)%Z -> method = "/csi.v1.Identity/Probe" ->
   snd (handler req) = None -> snd r = []).
Proof.
  cbv zeta. unfold logGRPC, logGRPCJson, V.
  destruct (handler req) as [resp err]. cbn [fst snd].
  split; [reflexivity|]. split; [|split].
  - intros e ->. rewrite !elem_of_app. right. right. left.
    now apply list_elem_of_singleton.
  - intros Hv. destruct (Z.leb_spec 5 verbosity); [lia|].
    destruct (_ <=? verbosity)%Z, err; repeat constructor.
  - intros Hv -> ->. rewrite String.eqb_refl.
    destruct (Z.leb_spec 5 verbosity); [lia|]. reflexivity.
Qed.

(** [logGRPC_log] on a failing call at the default verbosity. *)
Lemma logGRPC_log_witness :
  ErrorLine "boom" ∈
    snd (logGRPC 0 (fun _ : string => ("", Some "boom")) "/csi.v1.Node/NodeGetInfo" "req").
Proof.
  apply (proj1 (proj2 (logGRPC_log 0 (fun _ : string => ("", Some "boom"))
                         "/csi.v1.Node/NodeGetInfo" "req"))).
  reflexivity.
Defined.

End GrpcFacts.

(* ===================================================================== *)
(** ** Facts: bindings over requests in a row *)
(* ===================================================================== *)

Module VolumesFacts.
Import GoStrings GoStringsFacts Disk Shape Scenario DiskFacts Alloc Volumes.

Lemma bindKey_inj a b : bindKey a = bindKey b -> a = b.
Proof. apply append_inj_r. Qed.

Lemma bindKey_idKey name : bindKey name = idKey -> name = "id".
Proof. intros H. now apply (append_inj_r "/xiaomakai/" name "id"). Qed.

Lemma bindKey_not_idKey name : name <> "id" -> bindKey name <> idKey.
Proof. intros Hn H. now apply Hn, bindKey_idKey. Qed.

(** *** What one request writes *)

(** As [go_run], keeping what each lookup of the store was found to be,
    so that the same lookup met again later gets the same answer. *)
Ltac go_case_keep :=
  match goal with
  | H : etcd_up ?e |- context [etcd_fault ?e ?h] => rewrite (H h)
  | H : ?m !! ?k = _ |- context [?m !! ?k] => rewrite H
  | |- context [<[?k := ?v]> ?m !! ?k] => rewrite (lookup_insert_eq m k v)
  | |- context [monitor ?e ?h ?n ?c] => destruct (monitor e h n c)
  | |- context [etcd_fault ?e ?h] => destruct (etcd_fault e h)
  | |- context [@lookup string string (gmap string string) _ ?k ?m] =>
      destruct (m !! k) eqn:?
  end.

Ltac go_run_keep :=
  run_go; unfold fresh; repeat first [progress go_step | go_case_keep].

(** Publish writes the counter key and the binding key of its volume,
    and nothing else. *)
Lemma publish_frame env store name node :
  forall key, key <> idKey -> key <> bindKey name ->
    kv (snd (publish name node env (fresh store))) !! key = store !! key.
Proof.
  go_run; intros key H1 H2; rewrite ?lookup_insert_ne by congruence; reflexivity.
Qed.

(** Publish on a bound volume writes nothing. *)
Lemma publish_bound_store env store name node serial :
  store !! bindKey name = Some serial ->
  kv (snd (publish name node env (fresh store))) = store.
Proof. intros Hk. go_run; reflexivity. Qed.

(** The store after a publish, when etcd answers. *)
Lemma publish_store_up env store name node :
  etcd_up env ->
  kv (snd (publish name node env (fresh store))) =
  match monitor env [] node (drive_add_cmd name), store !! bindKey name with
  | None, None =>
      match store !! idKey with
      | None => <[bindKey name := "0"]> (<[idKey := "1"]> store)
      | Some old =>
          <[bindKey name := old]>
            (<[idKey := Sprintf_d (wrap_int (fst (Atoi old) + 1))]> store)
      end
  | _, _ => store
  end.
Proof. intros Hup. go_run; reflexivity. Qed.

Lemma unpublish_store env store name node :
  kv (snd (unpublish name node env (fresh store))) = store.
Proof.
  rewrite unpublish_run. cbv zeta.
  destruct (monitor env _ node (device_del_cmd name)); [|reflexivity].
  destruct (monitor env _ node (drive_del_cmd name)); reflexivity.
Qed.

Lemma devPath_store env store name :
  kv (snd (devPath name env (fresh store))) = store.
Proof. go_run; reflexivity. Qed.

Lemma deleteDisk_store env name store :
  kv (after (deleteDisk env name store)) = store \/
  kv (after (deleteDisk env name store)) = delete (bindKey name) store.
Proof.
  unfold deleteDisk. destruct (remove_image env _); [now left|].
  cbn [after kv]. destruct (etcd_delete env _); [now right|now left].
Qed.

(** Every device attach carries the serial that the store binds to the
    volume when the request ends. *)
Lemma attach_uses_binding env store name node :
  forall serial err,
    MonitorExec node (device_add_cmd name serial) err
      ∈ trace (snd (publish name node env (fresh store))) ->
    kv (snd (publish name node env (fresh store))) !! bindKey name = Some serial.
Proof.
  go_run_keep.
  all: intros serial' err' Hin;
    repeat (apply elem_of_cons in Hin as [Hin|Hin];
            [first [ discriminate Hin
                   | apply exec_inj in Hin as (_ & Hc & _);
                     first [ apply device_add_serial in Hc; subst; reflexivity
                           | now apply device_add_not_drive_add in Hc
                           | now apply device_add_not_drive_del in Hc ] ] |]);
    now apply elem_of_nil in Hin.
Qed.

(** *** NextID, call after call *)

(** One call on a counter in order: it returns the counter and leaves
    its successor. *)
Lemma NextID_step env store n :
  etcd_up env -> counter_is store n -> (0 <= n < MaxInt)%Z ->
  fst (NextID env (fresh store)) = Done (Sprintf_d n) /\
  kv (snd (NextID env (fresh store))) = <[idKey := Sprintf_d (n + 1)]> store.
Proof.
  intros Hup [[Hk ->]|Hk] Hn.
  - rewrite (NextID_absent _ _ Hk (Hup _)). cbv zeta. rewrite (Hup _). auto.
  - rewrite (AllocFacts.NextID_present _ _ _ Hk Hup). cbn [fst snd kv].
    rewrite Atoi_Sprintf_d by lia. cbn [fst].
    rewrite wrap_int_id by (unfold MinInt; lia). auto.
Qed.

Lemma counter_is_insert store n : counter_is (<[idKey := Sprintf_d n]> store) n.
Proof. right. apply lookup_insert_eq. Qed.

Example NextID_three_times :
  fst (NextID_times (host []) 3 ∅) = [Done "0"; Done "1"; Done "2"].
Proof. vm_compute. reflexivity. Qed.

(** X7. Called [N] times in a row on a store whose counter stands at
    [n0] (etcd answering, the serials within [int]), [NextID] returns the
    decimal forms of [n0], [n0 + 1], ..., [n0 + N - 1], in this order,
    and leaves the counter at [n0 + N]: the serials go up by one, with
    no gap and no repetition. *)
Theorem NextID_times_consecutive (env : Env) (N : nat) (store : gmap string string)
    (n0 : Z) :
  etcd_up env -> counter_is store n0 -> (0 <= n0)%Z -> (n0 + Z.of_nat N <= MaxInt)%Z ->
  fst (NextID_times env N store)
    = (fun i => Done (Sprintf_d (n0 + Z.of_nat i))) <$> seq 0 N /\
  counter_is (snd (NextID_times env N store)) (n0 + Z.of_nat N).
Proof.
  intros Hup. revert store n0.
  induction N as [|N IH]; intros store n0 Hc H0 Hfit.
  - cbn. rewrite Z.add_0_r. auto.
  - cbn [NextID_times fst snd].
    destruct (NextID_step env store n0 Hup Hc) as [Hr Hs]; [lia|].
    rewrite Hr, Hs.
    destruct (IH (<[idKey := Sprintf_d (n0 + 1)]> store) (n0 + 1)%Z) as [IH1 IH2];
      [apply counter_is_insert | lia | lia |].
    rewrite IH1. split.
    + cbn [seq fmap list_fmap]. rewrite Z.add_0_r. f_equal.
      rewrite <- seq_shift, <- list_fmap_compose. apply list_fmap_ext.
      intros _ i _. cbn. do 2 f_equal. lia.
    + replace (n0 + Z.of_nat (S N))%Z with (n0 + 1 + Z.of_nat N)%Z by lia. exact IH2.
Qed.

(** [NextID_times_consecutive] for three calls on an empty store. *)
Lemma NextID_times_consecutive_witness :
  fst (NextID_times (host []) 3 ∅)
    = (fun i => Done (Sprintf_d (0 + Z.of_nat i))) <$> seq 0 3 /\
  counter_is (snd (NextID_times (host []) 3 ∅)) (0 + Z.of_nat 3).
Proof.
  apply (NextID_times_consecutive (host []) 3 ∅ 0).
  - intros h. reflexivity.
  - left. split; reflexivity.
  - lia.
  - vm_compute. discriminate.
Defined.

(** X8. The result of the counter write is dropped: when the read goes
    through and the write fails, [NextID] still returns a serial, leaves
    the store as it was, reports nothing (status and log untouched), and
    the next call that reads the store returns that same serial again. *)
Theorem NextID_lost_write (env env' : Env) (store : gmap string string) (e : string) :
  etcd_fault env [] = None ->
  etcd_fault env [EtcdGet idKey
                    (GetOk (match store !! idKey with
                            | Some v => [(idKey, v)]
                            | None => []
                            end))] = Some e ->
  etcd_fault env' [] = None ->
  let r := NextID env (fresh store) in
  (exists serial, fst r = Done serial /\
                  fst (NextID env' (fresh (kv (snd r)))) = Done serial) /\
  kv (snd r) = store /\ status (snd r) = 200%Z /\ logged (snd r) = [].
Proof.
  intros Hg Hp Hg'. cbv zeta.
  assert (forall env0, etcd_fault env0 [] = None ->
            fst (NextID env0 (fresh store)) =
            Done (match store !! idKey with Some v => v | None => "0" end)) as Hfst.
  { intros env0 H0. run_go. unfold fresh. cbn [kv trace status body logged app].
    rewrite H0. destruct (store !! idKey); rewrite ?Count_nil, ?Count_cons; reflexivity. }
  assert (kv (snd (NextID env (fresh store))) = store /\
          status (snd (NextID env (fresh store))) = 200%Z /\
          logged (snd (NextID env (fresh store))) = []) as (Hkv & Hst & Hlg).
  { run_go. unfold fresh. cbn [kv trace status body logged app].
    rewrite Hg. destruct (store !! idKey); rewrite ?Count_nil, ?Count_cons;
      cbn [fst snd kv trace status body logged app]; rewrite Hp; auto. }
  split; [|auto].
  eexists. split; [apply Hfst, Hg|]. rewrite Hkv. apply Hfst, Hg'.
Qed.

(** [NextID_lost_write] on a host whose second etcd request (the write)
    times out. *)
Lemma NextID_lost_write_witness :
  let r := NextID (etcd_drops 1) (fresh {[ idKey := "7" ]}) in
  (exists serial, fst r = Done serial /\
                  fst (NextID (host []) (fresh (kv (snd r)))) = Done serial) /\
  kv (snd r) = {[ idKey := "7" ]} /\ status (snd r) = 200%Z /\ logged (snd r) = [].
Proof.
  apply (NextID_lost_write (etcd_drops 1) (host []) {[ idKey := "7" ]} "timeout");
    reflexivity.
Defined.

(** *** Publish and the binding *)

(** X9. Whatever the host and etcd answer, a device attach is never sent
    with a serial other than the one the store binds to the volume:
    when the request ends, the binding of the volume is exactly the
    serial every device attach of the request carried. *)
Theorem attach_serial_is_bound (env : Env) (store : gmap string string)
    (name node serial : string) (err : option string) :
  let r := publish name node env (fresh store) in
  MonitorExec node (device_add_cmd name serial) err ∈ sent r ->
  kv (snd r) !! bindKey name = Some serial.
Proof. cbv zeta. apply attach_uses_binding. Qed.

(** [attach_serial_is_bound] on the first publish of a volume. *)
Lemma attach_serial_is_bound_witness :
  kv (snd (publish "vol-a" "host-1" (host []) (fresh ∅))) !! bindKey "vol-a" = Some "0".
Proof.
  apply (attach_serial_is_bound (host []) ∅ "vol-a" "host-1" "0" None).
  vm_compute. set_solver.
Defined.

(** A publish that ends normally with status 200 has sent an accepted
    device attach. *)
Lemma publish_success_attached env store name node :
  fst (publish name node env (fresh store)) = Done tt ->
  status (snd (publish name node env (fresh store))) = 200%Z ->
  exists serial,
    MonitorExec node (device_add_cmd name serial) None
      ∈ trace (snd (publish name node env (fresh store))).
Proof.
  pose proof (publish_shape env store name node) as P.
  destruct (publish name node env (fresh store)) as [out st]. cbn [fst snd].
  intros -> Hst.
  inversion P as [kv' e0 | kv' etcd msg R | kv' etcd ser cmds o c l R A]; subst;
    cbn [status trace] in *; [discriminate Hst|].
  inversion A; subst. exists ser.
  apply elem_of_cons. right. apply elem_of_app. right. now apply list_elem_of_singleton.
Qed.

(** X10. After a publish that succeeded (normal end, status 200), a
    lookup of the device path of that volume, on an etcd that answers,
    writes the prefix followed by the very serial that the accepted
    device attach carried. *)
Theorem publish_then_devPath (env env' : Env) (store : gmap string string)
    (name node : string) :
  let r := publish name node env (fresh store) in
  fst r = Done tt -> status (snd r) = 200%Z -> etcd_fault env' [] = None ->
  exists serial,
    MonitorExec node (device_add_cmd name serial) None ∈ sent r /\
    let p := devPath name env' (fresh (kv (snd r))) in
    fst p = Done tt /\ status (snd p) = 200%Z /\
    body (snd p) = [Raw devPathPrefix; Raw serial].
Proof.
  cbv zeta. intros Hd Hs Hf.
  destruct (publish_success_attached env store name node Hd Hs) as [serial Hin].
  exists serial. split; [exact Hin|].
  rewrite (devPath_run _ _ _ Hf), (attach_uses_binding _ _ _ _ _ _ Hin). auto.
Qed.

(** [publish_then_devPath] on the first publish of a volume. *)
Lemma publish_then_devPath_witness :
  exists serial,
    MonitorExec "host-1" (device_add_cmd "vol-a" serial) None
      ∈ sent (publish "vol-a" "host-1" (host []) (fresh ∅)) /\
    let p := devPath "vol-a" (host [])
               (fresh (kv (snd (publish "vol-a" "host-1" (host []) (fresh ∅))))) in
    fst p = Done tt /\ status (snd p) = 200%Z /\
    body (snd p) = [Raw devPathPrefix; Raw serial].
Proof.
  apply (publish_then_devPath (host []) (host []) ∅ "vol-a" "host-1"); reflexivity.
Defined.

Example publish_etcd_down :
  let r := publish "vol-a" "host-1" (etcd_down "unavailable") (fresh ∅) in
  fst r = Panicked "unavailable" /\
  sent r = [MonitorExec "host-1" (drive_add_cmd "vol-a") None;
            EtcdGet (bindKey "vol-a") (GetErr "unavailable")].
Proof. vm_compute. auto. Qed.

(** X11. A publish that panics before any device attach was sent (an
    etcd request failed, or the binding could not be read back) had its
    backend attach accepted and sends no backend detach: the drive stays
    attached to the host.  No status is set and nothing is written to
    the response. *)
Theorem publish_panic_leaves_backend (env : Env) (store : gmap string string)
    (name node msg : string) :
  let r := publish name node env (fresh store) in
  fst r = Panicked msg ->
  (forall serial err, MonitorExec node (device_add_cmd name serial) err ∉ sent r) ->
  head (sent r) = Some (MonitorExec node (drive_add_cmd name) None) /\
  (forall err, MonitorExec node (drive_del_cmd name) err ∉ sent r) /\
  status (snd r) = 200%Z /\ body (snd r) = [].
Proof.
  cbv zeta. unfold sent. pose proof (publish_shape env store name node) as P.
  destruct (publish name node env (fresh store)) as [out st]. cbn [fst snd].
  intros -> Hno.
  inversion P as [kv' e0 | kv' etcd msg' R | kv' etcd ser cmds o c l R A]; subst;
    cbn [status trace body] in *.
  - split; [reflexivity|]. split; [|auto].
    intros err Hin. apply elem_of_cons in Hin as [Hin|Hin].
    + apply exec_inj in Hin as (_ & Hc & _). now apply drive_del_not_drive_add in Hc.
    + now apply (etcd_not_command _ _ _ _ (proj1 R)) in Hin.
  - exfalso. destruct (attached_commands _ _ _ _ _ _ _ A) as (_ & err & more & ->).
    apply (Hno ser err). apply elem_of_cons. right. apply elem_of_app. right.
    apply elem_of_cons. now left.
Qed.

(** [publish_panic_leaves_backend] on a host whose etcd is down. *)
Lemma publish_panic_leaves_backend_witness :
  let r := publish "vol-a" "host-1" (etcd_down "unavailable") (fresh ∅) in
  head (sent r) = Some (MonitorExec "host-1" (drive_add_cmd "vol-a") None) /\
  (forall err, MonitorExec "host-1" (drive_del_cmd "vol-a") err ∉ sent r) /\
  status (snd r) = 200%Z /\ body (snd r) = [].
Proof.
  apply (publish_panic_leaves_backend (etcd_down "unavailable") ∅
           "vol-a" "host-1" "unavailable").
  - reflexivity.
  - intros serial err. destruct publish_etcd_down as [_ ->].
    intros Hin. repeat (apply elem_of_cons in Hin as [Hin|Hin]; [discriminate Hin|]).
    now apply elem_of_nil in Hin.
Defined.

(** *** A store in order stays in order *)

Lemma store_ok_empty : store_ok ∅ 0.
Proof.
  split; [lia|]. split; [left; split; reflexivity|].
  split; intros *; rewrite ?lookup_empty; discriminate.
Qed.

(** Binding a free key to the counter and moving the counter on. *)
Lemma store_ok_bind store n key0 :
  store_ok store n -> (n < MaxInt)%Z -> key0 <> idKey -> store !! key0 = None ->
  store_ok (<[key0 := Sprintf_d n]> (<[idKey := Sprintf_d (n + 1)]> store)) (n + 1).
Proof.
  intros (H0 & Hc & Hv & Hi) Hn Hk0 Hfree.
  assert (forall key v, key <> idKey -> key <> key0 ->
            <[key0 := Sprintf_d n]> (<[idKey := Sprintf_d (n + 1)]> store) !! key = Some v ->
            store !! key = Some v) as Hold.
  { intros key v H1 H2. now rewrite !lookup_insert_ne by congruence. }
  split; [lia|]. split; [|split].
  - right. rewrite lookup_insert_ne by exact Hk0. apply lookup_insert_eq.
  - intros key v Hk Hl. destruct (decide (key = key0)) as [->|Hne].
    + rewrite lookup_insert_eq in Hl. injection Hl as <-. exists n. split; [lia|reflexivity].
    + apply Hold in Hl; [|exact Hk|exact Hne].
      destruct (Hv _ _ Hk Hl) as (k & Hk' & ->). exists k. split; [lia|reflexivity].
  - intros key key' v Hk Hk' Hl Hl'.
    destruct (decide (key = key0)) as [->|Hne], (decide (key' = key0)) as [->|Hne'];
      [reflexivity|..].
    + exfalso. rewrite lookup_insert_eq in Hl. injection Hl as <-.
      apply Hold in Hl'; [|exact Hk'|exact Hne'].
      destruct (Hv _ _ Hk' Hl') as (k & Hkn & E). apply Sprintf_d_inj in E; lia.
    + exfalso. rewrite lookup_insert_eq in Hl'. injection Hl' as <-.
      apply Hold in Hl; [|exact Hk|exact Hne].
      destruct (Hv _ _ Hk Hl) as (k & Hkn & E). apply Sprintf_d_inj in E; lia.
    + apply Hold in Hl, Hl'; try assumption. exact (Hi _ _ _ Hk Hk' Hl Hl').
Qed.

Lemma store_ok_delete store n key0 :
  store_ok store n -> key0 <> idKey -> store_ok (delete key0 store) n.
Proof.
  intros (H0 & Hc & Hv & Hi) Hk0. split; [exact H0|]. split; [|split].
  - destruct Hc as [[Hk Hz]|Hk]; [left|right]; rewrite lookup_delete_ne by exact Hk0; auto.
  - intros key v Hk Hl. apply lookup_delete_Some in Hl as [_ Hl]. eauto.
  - intros key key' v Hk Hk' Hl Hl'.
    apply lookup_delete_Some in Hl as [_ Hl], Hl' as [_ Hl']. eauto.
Qed.

Lemma publish_store_ok env store name node n :
  store_ok store n -> (n < MaxInt)%Z -> name <> "id" -> etcd_up env ->
  exists n', (n <= n' <= n + 1)%Z /\
             store_ok (kv (snd (publish name node env (fresh store)))) n'.
Proof.
  intros Hok Hn Hname Hup. rewrite (publish_store_up _ _ _ _ Hup).
  destruct (monitor env [] node (drive_add_cmd name)); [exists n; split; [lia|exact Hok]|].
  destruct (store !! bindKey name) eqn:Hb; [exists n; split; [lia|exact Hok]|].
  exists (n + 1)%Z. split; [lia|].
  pose proof (store_ok_bind store n (bindKey name) Hok Hn (bindKey_not_idKey _ Hname) Hb)
    as Hnew.
  destruct Hok as (H0 & Hc & _).
  destruct Hc as [[Hk ->]|Hk]; rewrite Hk.
  - exact Hnew.
  - rewrite Atoi_Sprintf_d by lia. cbn [fst].
    rewrite wrap_int_id by (unfold MinInt; lia). exact Hnew.
Qed.

Lemma serve_store_ok b rq store n :
  store_ok store n -> (n < MaxInt)%Z -> name_of rq <> "id" -> etcd_up (disk b) ->
  exists n', (n <= n' <= n + 1)%Z /\ store_ok (serve b rq store) n'.
Proof.
  intros Hok Hn Hname Hup. destruct rq as [name node|name node|name|name]; cbn [serve].
  - now apply publish_store_ok.
  - rewrite unpublish_store. exists n. split; [lia|exact Hok].
  - rewrite devPath_store. exists n. split; [lia|exact Hok].
  - exists n. split; [lia|].
    destruct (deleteDisk_store (admin b) name store) as [-> | ->]; [exact Hok|].
    apply store_ok_delete; [exact Hok|]. now apply bindKey_not_idKey.
Qed.

Lemma serve_all_store_ok l store n :
  store_ok store n -> (n + Z.of_nat (length l) <= MaxInt)%Z -> well_served l ->
  exists n', (n <= n' <= n + Z.of_nat (length l))%Z /\ store_ok (serve_all l store) n'.
Proof.
  revert store n. induction l as [|[b rq] l IH]; intros store n Hok Hfit Hw.
  - exists n. split; [cbn; lia|exact Hok].
  - apply Forall_cons in Hw as [[Hup Hname] Hw]. cbn [fst snd] in Hup, Hname.
    cbn [length] in Hfit.
    destruct (serve_store_ok b rq store n Hok) as (n1 & Hn1 & Hok1);
      [lia|exact Hname|exact Hup|].
    destruct (IH (serve b rq store) n1 Hok1) as (n' & Hn' & Hok'); [lia|exact Hw|].
    exists n'. split; [cbn [length]; lia|exact Hok'].
Qed.

Example three_volumes :
  let store := serve_all
      [({| disk := host []; admin := quiet_admin |}, ReqPublish "vol-a" "host-1");
       ({| disk := host []; admin := quiet_admin |}, ReqPublish "vol-b" "host-1");
       ({| disk := host []; admin := quiet_admin |}, ReqDelete "vol-a");
       ({| disk := host []; admin := quiet_admin |}, ReqPublish "vol-a" "host-2")] ∅ in
  store !! bindKey "vol-a" = Some "2" /\ store !! bindKey "vol-b" = Some "1" /\
  store !! idKey = Some "3".
Proof. vm_compute. auto. Qed.

(** X12. Requests handled one after the other keep the serials apart:
    starting from a store in order (the counter above every bound
    serial, no serial bound twice; the empty store is one), after any
    list of publish, unpublish, device-path and delete requests that
    meet an etcd that answers and do not name the volume "id", no two
    volumes are bound to the same serial, and the counter is still
    above every serial bound. *)
Theorem serials_stay_apart (l : list (Backend * Request)) (store : gmap string string)
    (n : Z) :
  store_ok store n -> (n + Z.of_nat (length l) <= MaxInt)%Z -> well_served l ->
  (forall a b serial,
     a <> "id" -> b <> "id" ->
     serve_all l store !! bindKey a = Some serial ->
     serve_all l store !! bindKey b = Some serial -> a = b) /\
  exists n', (n <= n' <= n + Z.of_nat (length l))%Z /\ store_ok (serve_all l store) n'.
Proof.
  intros Hok Hfit Hw.
  destruct (serve_all_store_ok l store n Hok Hfit Hw) as (n' & Hn' & Hok').
  split; [|eauto].
  intros a b serial Ha Hb Hla Hlb. destruct Hok' as (_ & _ & _ & Hi).
  apply bindKey_inj.
  exact (Hi _ _ _ (bindKey_not_idKey _ Ha) (bindKey_not_idKey _ Hb) Hla Hlb).
Qed.

(** [serials_stay_apart] for two volumes published on an empty store. *)
Lemma serials_stay_apart_witness :
  let l := [({| disk := host []; admin := quiet_admin |}, ReqPublish "vol-a" "host-1");
            ({| disk := host []; admin := quiet_admin |}, ReqPublish "vol-b" "host-1")] in
  (forall a b serial,
     a <> "id" -> b <> "id" ->
     serve_all l ∅ !! bindKey a = Some serial ->
     serve_all l ∅ !! bindKey b = Some serial -> a = b) /\
  exists n', (0 <= n' <= 0 + Z.of_nat (length l))%Z /\ store_ok (serve_all l ∅) n'.
Proof.
  cbv zeta. apply serials_stay_apart.
  - exact store_ok_empty.
  - vm_compute. discriminate.
  - repeat constructor; cbn; try discriminate; intros h; reflexivity.
Defined.

(** One request leaves the binding of another volume, and the binding
    of its own volume when there is one, as they are (delete apart). *)
Lemma serve_keeps_binding b rq store name serial :
  name <> "id" -> rq <> ReqDelete name ->
  store !! bindKey name = Some serial ->
  serve b rq store !! bindKey name = Some serial.
Proof.
  intros Hname Hrq Hk. destruct rq as [name' node|name' node|name'|name']; cbn [serve].
  - destruct (decide (name' = name)) as [->|Hne].
    + now rewrite (publish_bound_store _ _ _ _ _ Hk).
    + rewrite publish_frame; [exact Hk|now apply bindKey_not_idKey|].
      intros E. apply bindKey_inj in E. congruence.
  - now rewrite unpublish_store.
  - now rewrite devPath_store.
  - destruct (deleteDisk_store (admin b) name' store) as [-> | ->]; [exact Hk|].
    rewrite lookup_delete_ne; [exact Hk|].
    intros E. apply bindKey_inj in E. congruence.
Qed.

(** X13. Once written, a binding never changes: whatever the hosts and
    etcd answer, after any list of requests that holds no delete of the
    volume, a volume (other than "id") that was bound to a serial is
    still bound to that serial.  Publishing it again, unpublishing it
    and every request about other volumes leave it alone. *)
Theorem binding_is_stable (l : list (Backend * Request)) (store : gmap string string)
    (name serial : string) :
  name <> "id" -> Forall (fun br => snd br <> ReqDelete name) l ->
  store !! bindKey name = Some serial ->
  serve_all l store !! bindKey name = Some serial.
Proof.
  intros Hname. revert store. induction l as [|[b rq] l IH]; intros store Hl Hk.
  - exact Hk.
  - apply Forall_cons in Hl as [Hrq Hl]. cbn [snd] in Hrq.
    apply IH; [exact Hl|]. now apply serve_keeps_binding.
Qed.

(** [binding_is_stable] over a publish, an unpublish and the delete of
    another volume, on failing hosts. *)
Lemma binding_is_stable_witness :
  serve_all
    [({| disk := host ["device_add"]; admin := quiet_admin |}, ReqPublish "vol-a" "host-1");
     ({| disk := etcd_down "x"; admin := quiet_admin |}, ReqPublish "vol-b" "host-1");
     ({| disk := host []; admin := quiet_admin |}, ReqUnpublish "vol-a" "host-1");
     ({| disk := host []; admin := quiet_admin |}, ReqDelete "vol-b")]
    {[ bindKey "vol-a" := "7" ]} !! bindKey "vol-a" = Some "7".
Proof.
  apply binding_is_stable.
  - discriminate.
  - repeat constructor; discriminate.
  - reflexivity.
Defined.

(** *** Deleting a volume *)

Example delete_published :
  let store := kv (snd (publish "vol-a" "host-1" (host []) (fresh ∅))) in
  let d := deleteDisk quiet_admin "vol-a" store in
  requests d = [FileRemove "/fs/trust/vm/csi/vol-a.qcow2" None;
                EtcdDelete "/xiaomakai/vol-a" (DeleteOk "ok")] /\
  kv (after d) !! bindKey "vol-a" = None /\ kv (after d) !! idKey = Some "1" /\
  stdout d = ["Removed  vol-a"].
Proof. vm_compute. auto. Qed.

(** X14. A delete whose file removal and etcd request both succeed
    removes the image file first and the binding of the volume second,
    answers status 200, and leaves every other key of the store (the
    counter and the other bindings) as it was; a lookup of the device
    path of that volume is then answered with status 500 and no path. *)
Theorem delete_then_devPath (env : AdminEnv) (env' : Env) (store : gmap string string)
    (name resp : string) :
  remove_image env (diskRoot +:+ name +:+ ".qcow2") = None ->
  etcd_delete env (bindKey name) = DeleteOk resp ->
  etcd_fault env' [] = None ->
  let d := deleteDisk env name store in
  requests d = [FileRemove (diskRoot +:+ name +:+ ".qcow2") None;
                EtcdDelete (bindKey name) (DeleteOk resp)] /\
  status (after d) = 200%Z /\
  kv (after d) !! bindKey name = None /\
  (forall key, key <> bindKey name -> kv (after d) !! key = store !! key) /\
  let p := devPath name env' (fresh (kv (after d))) in
  fst p = Done tt /\ status (snd p) = 500%Z /\ written (body (snd p)) = "".
Proof.
  intros Hrm Hdel Hf. cbv zeta. unfold deleteDisk. rewrite Hrm, Hdel.
  cbn [requests after status kv].
  split; [reflexivity|]. split; [reflexivity|].
  split; [apply lookup_delete_eq|].
  split; [intros key Hk; now apply lookup_delete_ne|].
  rewrite (devPath_run _ _ _ Hf), lookup_delete_eq. repeat split.
Qed.

(** [delete_then_devPath] on a volume published before. *)
Lemma delete_then_devPath_witness :
  let d := deleteDisk quiet_admin "vol-a" {[ bindKey "vol-a" := "7" ]} in
  requests d = [FileRemove (diskRoot +:+ "vol-a" +:+ ".qcow2") None;
                EtcdDelete (bindKey "vol-a") (DeleteOk "ok")] /\
  status (after d) = 200%Z /\
  kv (after d) !! bindKey "vol-a" = None /\
  (forall key, key <> bindKey "vol-a" ->
               kv (after d) !! key = ({[ bindKey "vol-a" := "7" ]} : gmap string string) !! key) /\
  let p := devPath "vol-a" (host []) (fresh (kv (after d))) in
  fst p = Done tt /\ status (snd p) = 500%Z /\ written (body (snd p)) = "".
Proof.
  apply (delete_then_devPath quiet_admin (host []) {[ bindKey "vol-a" := "7" ]}
           "vol-a" "ok"); reflexivity.
Defined.

(** X15. The two ways a delete fails.  When the image file cannot be
    removed, the answer is status 500 with the error as message, etcd is
    not asked anything and the store is untouched.  When the file is
    removed but the etcd request fails, the error only goes to the log:
    the answer is status 200 with an empty body although the binding is
    still in the store, and a later lookup still resolves the volume to
    its old serial. *)
Theorem delete_failures (env : AdminEnv) (env' : Env) (store : gmap string string)
    (name : string) :
  let path := diskRoot +:+ name +:+ ".qcow2" in
  let d := deleteDisk env name store in
  (forall e, remove_image env path = Some e ->
     requests d = [FileRemove path (Some e)] /\ status (after d) = 500%Z /\
     body (after d) = [JSONMessage e] /\ kv (after d) = store) /\
  (forall e serial,
     remove_image env path = None -> etcd_delete env (bindKey name) = DeleteErr e ->
     store !! bindKey name = Some serial -> etcd_fault env' [] = None ->
     status (after d) = 200%Z /\ body (after d) = [] /\
     logged (after d) = ["etcd delete ERR: " +:+ e] /\ kv (after d) = store /\
     body (snd (devPath name env' (fresh (kv (after d)))))
       = [Raw devPathPrefix; Raw serial]).
Proof.
  cbv zeta. unfold deleteDisk. split.
  - intros e ->. repeat split.
  - intros e serial -> -> Hk Hf. cbn [after status body logged kv].
    rewrite (devPath_run _ _ _ Hf), Hk. repeat split.
Qed.

(** [delete_failures] with an etcd that refuses the delete. *)
Lemma delete_failures_witness :
  let env := {| remove_image := fun _ => None;
                etcd_delete := fun _ => DeleteErr "unavailable" |} in
  let d := deleteDisk env "vol-a" {[ bindKey "vol-a" := "7" ]} in
  status (after d) = 200%Z /\ body (after d) = [] /\
  logged (after d) = ["etcd delete ERR: " +:+ "unavailable"] /\
  kv (after d) = {[ bindKey "vol-a" := "7" ]} /\
  body (snd (devPath "vol-a" (host []) (fresh (kv (after d)))))
    = [Raw devPathPrefix; Raw "7"].
Proof.
  cbv zeta.
  apply (proj2 (delete_failures
                  {| remove_image := fun _ => None;
                     etcd_delete := fun _ => DeleteErr "unavailable" |}
                  (host []) {[ bindKey "vol-a" := "7" ]} "vol-a")); reflexivity.
Defined.

(** X16. A volume that is deleted and published again does not get its
    old serial back: on a store in order and an etcd that answers, every
    device attach of the publish after the delete carries the value of
    the counter, which is a serial no volume was given before. *)
Theorem republish_fresh_serial (env : Env) (store : gmap string string) (n : Z)
    (name node old serial : string) (err : option string) :
  store_ok store n -> (n < MaxInt)%Z -> name <> "id" -> etcd_up env ->
  store !! bindKey name = Some old ->
  MonitorExec node (device_add_cmd name serial) err
    ∈ sent (publish name node env (fresh (delete (bindKey name) store))) ->
  serial = Sprintf_d n /\ serial <> old /\
  (forall key v, key <> idKey -> store !! key = Some v -> v <> serial).
Proof.
  intros (H0 & Hc & Hv & Hi) Hn Hname Hup Hold Hin.
  apply attach_uses_binding in Hin. rewrite (publish_store_up _ _ _ _ Hup) in Hin.
  rewrite lookup_delete_eq in Hin.
  assert (delete (bindKey name) store !! idKey = store !! idKey) as Hid.
  { apply lookup_delete_ne. now apply bindKey_not_idKey. }
  rewrite Hid in Hin.
  assert (serial = Sprintf_d n) as ->.
  { destruct (monitor env [] node (drive_add_cmd name)).
    - rewrite lookup_delete_eq in Hin. discriminate Hin.
    - destruct Hc as [[Hk ->]|Hk]; rewrite Hk, lookup_insert_eq in Hin;
        injection Hin as <-; reflexivity. }
  assert (forall key v, key <> idKey -> store !! key = Some v -> v <> Sprintf_d n) as Hfresh.
  { intros key v Hk Hl E. destruct (Hv _ _ Hk Hl) as (k & Hkn & ->).
    apply Sprintf_d_inj in E; lia. }
  split; [reflexivity|]. split; [|exact Hfresh].
  intros E. apply (Hfresh (bindKey name) old);
    [now apply bindKey_not_idKey | exact Hold | now symmetry].
Qed.

(** [republish_fresh_serial] on the store two publishes leave. *)
Lemma republish_fresh_serial_witness :
  "2" = Sprintf_d 2 /\ "2" <> "0" /\
  (forall key v, key <> idKey ->
     serve_all
       [({| disk := host []; admin := quiet_admin |}, ReqPublish "vol-a" "host-1");
        ({| disk := host []; admin := quiet_admin |}, ReqPublish "vol-b" "host-1")] ∅
       !! key = Some v -> v <> "2").
Proof.
  destruct (serve_all_store_ok
              [({| disk := host []; admin := quiet_admin |}, ReqPublish "vol-a" "host-1");
               ({| disk := host []; admin := quiet_admin |}, ReqPublish "vol-b" "host-1")]
              ∅ 0 store_ok_empty) as (n' & Hn' & Hok).
  { vm_compute. discriminate. }
  { repeat constructor; cbn; try discriminate; intros h; reflexivity. }
  assert (n' = 2%Z) as ->.
  { destruct Hok as (_ & [[Hk _]|Hk] & _); vm_compute in Hk; [discriminate Hk|].
    injection Hk as Hk.
    assert (Sprintf_d n' = Sprintf_d 2) as E by (symmetry; exact Hk).
    cbn [length] in Hn'.
    apply Sprintf_d_inj in E; [exact E|unfold MaxInt; lia|unfold MaxInt; lia]. }
  apply (republish_fresh_serial (host []) _ 2 "vol-a" "host-1" "0" "2" None Hok).
  - vm_compute. reflexivity.
  - discriminate.
  - intros h. reflexivity.
  - vm_compute. reflexivity.
  - vm_compute. repeat (apply elem_of_cons; first [left; reflexivity | right]).
Defined.

(** *** The volume whose binding key is the counter key *)

Lemma NextID_reads env store :
  etcd_fault env [] = None ->
  fst (NextID env (fresh store)) =
  Done (match store !! idKey with Some v => v | None => "0" end).
Proof.
  intros H0. run_go. unfold fresh. cbn [kv trace status body logged app].
  rewrite H0. destruct (store !! idKey); rewrite ?Count_nil, ?Count_cons; reflexivity.
Qed.

(** X17. The binding key of the volume named "id" is the counter key.
    Publishing that volume on a store without counter (etcd answering,
    the backend attach accepted) binds it to "0" by overwriting the
    counter that [NextID] had just set to "1"; the counter then reads
    "0", and the next [NextID] returns "0" again, the serial already
    bound. *)
Theorem volume_id_resets_counter (env env' : Env) (store : gmap string string)
    (node : string) :
  etcd_up env -> store !! idKey = None ->
  monitor env [] node (drive_add_cmd "id") = None ->
  etcd_fault env' [] = None ->
  let r := publish "id" node env (fresh store) in
  bindKey "id" = idKey /\
  kv (snd r) !! bindKey "id" = Some "0" /\
  fst (NextID env' (fresh (kv (snd r)))) = Done "0".
Proof.
  intros Hup Hk Hm Hf. cbv zeta. split; [reflexivity|].
  rewrite (NextID_reads _ _ Hf), (publish_store_up _ _ _ _ Hup), Hm.
  change (bindKey "id") with idKey. rewrite Hk, lookup_insert_eq. auto.
Qed.

(** [volume_id_resets_counter] on an empty store. *)
Lemma volume_id_resets_counter_witness :
  let r := publish "id" "host-1" (host []) (fresh ∅) in
  bindKey "id" = idKey /\
  kv (snd r) !! bindKey "id" = Some "0" /\
  fst (NextID (host []) (fresh (kv (snd r)))) = Done "0".
Proof.
  apply (volume_id_resets_counter (host []) (host []) ∅ "host-1");
    [intros h; reflexivity | reflexivity | reflexivity | reflexivity].
Defined.

(** *** One process: the serials are consecutive *)

Lemma all_returned_length s :
  all_returned s = true -> length (serials s) = length (threads s).
Proof.
  unfold all_returned, serials. induction (threads s) as [|t ts IH]; [reflexivity|].
  cbn [forallb]. intros H. apply andb_true_iff in H as [Ht Hts].
  apply bool_decide_eq_true in Ht as [v Hv]. cbn. rewrite Hv. cbn. f_equal. auto.
Qed.

(** X18. When all calls of [NextID] are made in one process (the store
    answering, the counter at [n0], the serials within [int]) and every
    call has returned, the serials handed out are exactly the decimal
    forms of [n0], ..., [n0 + N - 1], each once, whatever the schedule
    was, and the counter stands at [n0 + N]. *)
Theorem one_process_serials_consecutive (p : nat) (n0 : Z) (kv0 : gmap string string)
    (procs sched : list nat) :
  (0 <= n0)%Z -> (n0 + Z.of_nat (length procs) <= MaxInt)%Z ->
  Forall (fun q => q = p) procs -> counter_is kv0 n0 ->
  all_returned (run sched (start kv0 procs)) = true ->
  serials (run sched (start kv0 procs)) ≡ₚ handed_out n0 (length procs) /\
  counter_is (store (run sched (start kv0 procs))) (n0 + Z.of_nat (length procs)).
Proof.
  intros H0 Hfit Hp Hc Hall.
  pose proof (AllocFacts.invariant_run p n0 (length procs) H0 Hfit sched _
                (AllocFacts.invariant_start p n0 (length procs) kv0 procs Hp eq_refl Hc))
    as [_ Hl _ _ (c & Hcnt & Hs)].
  assert (c = length procs) as ->.
  { rewrite <- Hl, <- (all_returned_length _ Hall), Hs.
    symmetry. apply AllocFacts.handed_out_length. }
  auto.
Qed.

(** [one_process_serials_consecutive] for three calls in one process
    under an interleaved schedule. *)
Lemma one_process_serials_consecutive_witness :
  let s := run [0; 1; 2; 0; 1; 0; 2; 1; 1; 2; 1; 2; 1; 1; 1] (start ∅ [0; 0; 0]) in
  serials s ≡ₚ handed_out 0 3 /\ counter_is (store s) (0 + Z.of_nat 3).
Proof.
  apply (one_process_serials_consecutive 0 0 ∅ [0; 0; 0]).
  - lia.
  - vm_compute. discriminate.
  - repeat constructor.
  - left. split; reflexivity.
  - vm_compute. reflexivity.
Defined.

End VolumesFacts.
